(** * StatPulse health check: a shallow embedding of [scripts/check-health.js]

    The script probes a fixed list of HTTP endpoints, scores each response
    time against a rolling average taken from the persisted log, appends the
    results to that log (capped at [MAX_LOG_ENTRIES]) and derives the process
    exit code.

    Conventions of the embedding.
    - JavaScript numbers that hold millisecond counts, HTTP statuses and
      counters are integers ([Z]): an integer stands for the double that
      holds it.  The arithmetic of the anomaly detector is that of IEEE 754
      binary64: every sum and quotient is the double nearest to the exact
      result, ties to even ([Js.round64]); [Math.round] and [toFixed(2)]
      are then exact functions of that double.
    - [null] is [None].
    - A JavaScript object with a fixed set of keys is a record; a key that an
      object literal may leave out is an [option] field of the record.  Log
      entries are such records: a log file whose array holds values of
      another shape has no reading here.
    - The network, the clock and the file system are explicit inputs; the
      timer and its cancellation show only through the [AbortError] a
      request is rejected with, a write that fails through the error it
      throws.  Console output is left out. *)

From Stdlib Require Import ZArith QArith Qround Qabs Qpower Lqa Lia.
From Stdlib Require Import List String Ascii Bool.
From Stdlib Require Import DecimalString DecimalN DecimalPos.
From Stdlib Require SpecFloat.
Import ListNotations.

Local Open Scope Z_scope.

(** ** Named constants (lines 18-46 of the script) *)

Definition MAX_LOG_ENTRIES : nat := 200.
Definition TIMEOUT_MS : Z := 15000.
Definition ANOMALY_WINDOW : nat := 10.
Definition ANOMALY_MIN_SAMPLES : nat := 5.
Definition ANOMALY_WARNING_FACTOR : Z := 2.
Definition ANOMALY_CRITICAL_FACTOR : Z := 3.

(** ** The fragment of the JavaScript runtime the script relies on *)

Module Js.

(** [Math.round(x)]: the integer closest to [x], ties towards +infinity. *)
Definition Math_round (x : Q) : Z := Qfloor (x + (1 # 2)).

(** A decimal numeral with two fraction digits, as [toFixed(2)] spells
    it, kept as its number of hundredths. *)
Record Fixed2 := { hundredths : Z }.

(** [x.toFixed(2)]: the numeral with two fraction digits closest to [x],
    ties away from zero (the sign is split off first, then the larger
    candidate is picked).  It is an exact function of the double it is
    applied to. *)
Definition toFixed2 (x : Q) : Fixed2 :=
  {| hundredths :=
       if Qle_bool 0 x then Qfloor (100 * x + (1 # 2))
       else - Qfloor (100 * - x + (1 # 2)) |}.

(** [parseFloat] of such a numeral: the number it spells. *)
Definition parseFloat (d : Fixed2) : Q := hundredths d # 100.

(** [a / b] where the quotient of two integers is itself a double: the
    script divides a byte count by 1024. *)
Definition div (a b : Z) : Q := inject_Z a / inject_Z b.

(** *** Numbers

    A number is a double: a rational, an infinity or [NaN].  The two zeros
    are one: the script never looks at the sign of a zero. *)
Inductive number :=
| Finite (q : Q)
| Infinite (negative : bool)
| NaN.

Definition pow2 (e : Z) : Q := Qpower 2 e.

(** The integer nearest to [x], ties to the even one. *)
Definition round_even (x : Q) : Z :=
  let f := Qfloor x in
  match (x - inject_Z f ?= 1 # 2)%Q with
  | Lt => f
  | Gt => f + 1
  | Eq => if Z.even f then f else f + 1
  end.

(** For a positive [q]: the [e] with [2^e <= q < 2^(e+1)]. *)
Definition binade (q : Q) : Z :=
  let e := Z.log2 (Qnum q) - Z.log2 (Zpos (Qden q)) in
  if Qle_bool (pow2 e) q then e else e - 1.

(** The doubles around a positive [q] are the multiples of [2^exponent q]:
    53 significant bits, and the spacing [2^-1074] of the subnormal numbers
    at the least. *)
Definition exponent (q : Q) : Z := Z.max (binade q - 52) (-1074).

Definition ulp (q : Q) : Q := pow2 (exponent q).

(** The multiple of [ulp q] nearest to a positive [q], ties to the even
    multiple. *)
Definition nearest (q : Q) : Q :=
  Qred (inject_Z (round_even (q / ulp q)) * ulp q).

(** A magnitude that rounds to [2^1024] or more overflows. *)
Definition overflow (negative : bool) (v : Q) : number :=
  if Qle_bool (pow2 1024) v then Infinite negative
  else Finite (if negative then - v else v)%Q.

(** The double nearest to a rational, ties to even: the rounding of
    every arithmetic operation and of every conversion. *)
Definition round64 (q : Q) : number :=
  match Qnum q with
  | 0 => Finite 0
  | Zpos _ => overflow false (nearest q)
  | Zneg _ => overflow true (nearest (- q))
  end.

(** The number that holds an integer; an integer that no double holds
    gives the nearest double, as a numeral does in a source text or in
    JSON. *)
Definition of_Z (z : Z) : number := round64 (inject_Z z).

(** [x + y] *)
Definition add (x y : number) : number :=
  match x, y with
  | Finite a, Finite b => round64 (a + b)
  | Finite _, Infinite s | Infinite s, Finite _ => Infinite s
  | Infinite s, Infinite s' => if Bool.eqb s s' then Infinite s else NaN
  | _, _ => NaN
  end.

(** [x / y].  A zero divisor has no sign here; the script never divides
    by zero. *)
Definition divide (x y : number) : number :=
  match x, y with
  | Finite a, Finite b =>
    if Qeq_bool b 0 then
      match Qnum a with
      | 0 => NaN
      | Zpos _ => Infinite false
      | Zneg _ => Infinite true
      end
    else round64 (a / b)
  | Finite _, Infinite _ => Finite 0
  | Infinite s, Finite b =>
    Infinite (xorb s (match Qnum b with Zneg _ => true | _ => false end))
  | _, _ => NaN
  end.

(** The value of a number where the script goes on to round it or to
    compare it.  An infinity counts as [2^1024], beyond every double and
    taken back to the infinity by [of_Z]; [NaN] counts as 0, which fails
    every threshold test of the script as [NaN] does. *)
Definition as_Q (x : number) : Q :=
  match x with
  | Finite q => q
  | Infinite false => pow2 1024
  | Infinite true => - pow2 1024
  | NaN => 0
  end.

(** A number of the Standard Library's specification of binary64, for
    comparing [round64] with that specification on examples. *)
Definition of_spec_float (f : SpecFloat.spec_float) : number :=
  match f with
  | SpecFloat.S754_zero _ => Finite 0
  | SpecFloat.S754_infinity s => Infinite s
  | SpecFloat.S754_nan => NaN
  | SpecFloat.S754_finite s m e =>
    Finite (Qred ((if s then - 1 else 1) * inject_Z (Zpos m) * pow2 e))
  end.

(** The double of an integer, by the Standard Library. *)
Definition spec_of_Z (z : Z) : SpecFloat.spec_float :=
  SpecFloat.binary_normalize 53 1024 z 0 false.

(** [xs.slice(-n)]: the last [n] elements; the whole array when it is
    shorter, and also when [n] is zero (since [-0] is [0]). *)
Definition slice_last {A : Type} (n : nat) (xs : list A) : list A :=
  match n with
  | O => xs
  | _ => skipn (List.length xs - n) xs
  end.

(** Decimal rendering of an integer, as template literals do. *)
Definition string_of_Z (z : Z) : string :=
  NilZero.string_of_int (Z.to_int z).

End Js.

(** ** Data model *)

Inductive Severity := warning | critical.

(** The object returned by [detectAnomaly]: [{ detected }] alone, or with the
    three further keys. *)
Record AnomalyVerdict := {
  detected : bool;
  rollingAvgMs : option Z;
  deviationFactor : option Js.Fixed2;
  severity : option Severity
}.

Inductive MetricValue :=
| MetricNumber (n : Z)
| MetricString (s : string).

Record ExtraMetric := {
  label : string;
  value : option MetricValue
}.

(** One entry of [health-log.json]. *)
Record ProbeResult := {
  endpoint : string;
  url : string;
  timestamp : string;
  status : option Z;
  ok : bool;
  responseTimeMs : option Z;
  contentTypeValid : bool;
  responseSizeKB : option Js.Fixed2;
  extraMetric : ExtraMetric;
  anomaly : AnomalyVerdict;
  error : option string
}.

(** ** Anomaly detection (lines 147-185) *)

Definition not_detected : AnomalyVerdict :=
  {| detected := false; rollingAvgMs := None; deviationFactor := None;
     severity := None |}.

Definition is_null {A : Type} (o : option A) : bool :=
  match o with None => true | Some _ => false end.

(** [r.endpoint === endpointName && r.responseTimeMs !== null] *)
Definition qualifies (endpointName : string) (r : ProbeResult) : bool :=
  String.eqb (endpoint r) endpointName && negb (is_null (responseTimeMs r)).

(** The constant [history]: the qualifying entries, cut to the most recent
    [ANOMALY_WINDOW]. *)
Definition history_of (endpointName : string) (historicalLog : list ProbeResult)
  : list ProbeResult :=
  Js.slice_last ANOMALY_WINDOW (filter (qualifies endpointName) historicalLog).

(** [sum + r.responseTimeMs]; a [null] operand counts as [0]. *)
Definition add_time (sum : Js.number) (r : ProbeResult) : Js.number :=
  Js.add sum (Js.of_Z match responseTimeMs r with Some t => t | None => 0 end).

(** [history.reduce((sum, r) => sum + r.responseTimeMs, 0) / history.length] *)
Definition mean (history : list ProbeResult) : Js.number :=
  Js.divide (fold_left add_time history (Js.of_Z 0))
            (Js.of_Z (Z.of_nat (List.length history))).

(** [Math.round] of the mean.  The sum of ten doubles overflows only beyond
    [10^307]: [Math.round] then gives the infinity, here [2^1024].  The mean
    of doubles that hold integers is never [NaN] ([mean_not_NaN] below); on
    the [NaN] that infinite response times of both signs would add up to,
    the value here is 0 and the guard of line 170 answers, where the script
    goes on and detects nothing either. *)
Definition rolling_average (history : list ProbeResult) : Z :=
  Js.Math_round (Js.as_Q (mean history)).

(** [currentMs / rollingAvgMs] *)
Definition ratio (currentMs rollingAvg : Z) : Js.number :=
  Js.divide (Js.of_Z currentMs) (Js.of_Z rollingAvg).

(** [(currentMs / rollingAvgMs).toFixed(2)]; the script reads it back with
    [parseFloat] wherever it uses it as a number. *)
Definition deviation (currentMs rollingAvg : Z) : Js.Fixed2 :=
  Js.toFixed2 (Js.as_Q (ratio currentMs rollingAvg)).

Definition detectAnomaly (endpointName : string) (currentMs : option Z)
    (historicalLog : list ProbeResult) : AnomalyVerdict :=
  match currentMs with
  | None => not_detected
  | Some currentMs =>
    let history := history_of endpointName historicalLog in
    if (List.length history <? ANOMALY_MIN_SAMPLES)%nat then not_detected
    else
      let rollingAvg := rolling_average history in
      if rollingAvg =? 0 then not_detected
      else
        let factor := deviation currentMs rollingAvg in
        if Qle_bool (inject_Z ANOMALY_CRITICAL_FACTOR) (Js.parseFloat factor) then
          {| detected := true; rollingAvgMs := Some rollingAvg;
             deviationFactor := Some factor; severity := Some critical |}
        else if Qle_bool (inject_Z ANOMALY_WARNING_FACTOR) (Js.parseFloat factor) then
          {| detected := true; rollingAvgMs := Some rollingAvg;
             deviationFactor := Some factor; severity := Some warning |}
        else not_detected
  end.

(** The divisor of [currentMs / rollingAvgMs] when control reaches that
    division (line 174), [None] when [detectAnomaly] returns before it. *)
Definition scoring_divisor (endpointName : string) (currentMs : option Z)
    (historicalLog : list ProbeResult) : option Z :=
  match currentMs with
  | None => None
  | Some _ =>
    let history := history_of endpointName historicalLog in
    if (List.length history <? ANOMALY_MIN_SAMPLES)%nat then None
    else
      let rollingAvg := rolling_average history in
      if rollingAvg =? 0 then None else Some rollingAvg
  end.

(** Lines 176-184: the verdict for a deviation factor. *)
Definition verdict_for (rollingAvg : Z) (factor : Js.Fixed2) : AnomalyVerdict :=
  if Qle_bool (inject_Z ANOMALY_CRITICAL_FACTOR) (Js.parseFloat factor) then
    {| detected := true; rollingAvgMs := Some rollingAvg;
       deviationFactor := Some factor; severity := Some critical |}
  else if Qle_bool (inject_Z ANOMALY_WARNING_FACTOR) (Js.parseFloat factor) then
    {| detected := true; rollingAvgMs := Some rollingAvg;
       deviationFactor := Some factor; severity := Some warning |}
  else {| detected := false; rollingAvgMs := None; deviationFactor := None;
          severity := None |}.

(** How severe a verdict is: nothing detected, [warning], [critical]. *)
Definition severity_rank (v : AnomalyVerdict) : nat :=
  match detected v, severity v with
  | true, Some critical => 2
  | true, _ => 1
  | false, _ => 0
  end.

(** A log entry of a successful probe, for examples. *)
Definition entry_of (name : string) (ms : option Z) : ProbeResult :=
  {| endpoint := name; url := ""; timestamp := ""; status := Some 200;
     ok := true; responseTimeMs := ms; contentTypeValid := true;
     responseSizeKB := None;
     extraMetric := {| label := ""; value := None |};
     anomaly := not_detected; error := None |}.

(** ** Exceptions *)

Record JsError := {
  err_name : string;
  err_code : option string;
  err_message : string
}.

(** The completion of a call that may throw. *)
Inductive Completion (A : Type) :=
| Return (a : A)
| Throw (e : JsError).
Arguments Return {A} a.
Arguments Throw {A} e.

(** [try { body } catch (err) { handler }] *)
Definition try_catch {A : Type} (body : Completion A)
    (handler : JsError -> Completion A) : Completion A :=
  match body with
  | Return a => Return a
  | Throw e => handler e
  end.

Definition bind {A B : Type} (c : Completion A) (k : A -> Completion B)
  : Completion B :=
  match c with
  | Return a => k a
  | Throw e => Throw e
  end.

Notation "'let*' x ':=' c 'in' k" := (bind c (fun x => k))
  (at level 10, x name, c at level 100, k at level 200).

(** ** Strings *)

Module Text.

Local Open Scope string_scope.

Definition lower (c : ascii) : ascii :=
  let n := nat_of_ascii c in
  if ((65 <=? n) && (n <=? 90))%nat then ascii_of_nat (n + 32) else c.

Fixpoint lowercase (s : string) : string :=
  match s with
  | EmptyString => EmptyString
  | String c s' => String (lower c) (lowercase s')
  end.

(** Is [pat] a substring of [s]? *)
Fixpoint contains (pat s : string) : bool :=
  prefix pat s ||
  match s with
  | EmptyString => false
  | String _ s' => contains pat s'
  end.

(** Number of matches of a literal pattern under the [g] flag: matches
    are taken left to right and do not overlap.  [skip] counts the
    characters of the last match still to be passed over. *)
Fixpoint count_from (pat : string) (skip : nat) (s : string) : nat :=
  match s with
  | EmptyString => O
  | String _ s' =>
    match skip with
    | S k => count_from pat k s'
    | O =>
      if prefix pat s
      then S (count_from pat (String.length pat - 1) s')
      else count_from pat O s'
    end
  end.

Definition count_matches (pat s : string) : nat := count_from pat O s.

(** The two fraction digits of a [toFixed(2)] numeral. *)
Definition two_digits (n : Z) : string :=
  (if (n <? 10)%Z then "0" else "") ++ Js.string_of_Z n.

(** The string [toFixed(2)] returns. *)
Definition fixed2 (d : Js.Fixed2) : string :=
  let n := Js.hundredths d in
  (if (n <? 0)%Z then "-" else "") ++
  Js.string_of_Z (Z.abs n / 100)%Z ++ "." ++ two_digits (Z.abs n mod 100)%Z.

End Text.

(** ** Endpoint definitions (lines 67-113) *)

Module Endpoint.
Record Config := {
  name : string;
  url : string;
  extraMetric : string -> ExtraMetric
}.
End Endpoint.

(** [Buffer.byteLength(body, 'utf8')]: strings are sequences of bytes. *)
Definition byteLength (body : string) : Z := Z.of_nat (String.length body).

Definition structures_endpoint : Endpoint.Config :=
  {| Endpoint.name := "Structures";
     Endpoint.url :=
       "https://nsi-demo-stable.siscc.org/rest/datastructure/all/all/all?detail=allstubs";
     Endpoint.extraMetric := fun body =>
       {| label := "DataStructure count";
          value := Some (MetricNumber
                     (Z.of_nat (Text.count_matches "DataStructure" body))) |} |}.

Definition data_query_endpoint : Endpoint.Config :=
  {| Endpoint.name := "Data Query";
     Endpoint.url :=
       "https://nsi-demo-stable.siscc.org/rest/data/OECD.CFE,INBOUND@TOURISM_TRIPS,2.0";
     Endpoint.extraMetric := fun body =>
       {| label := "Response size KB";
          value := Some (MetricString
                     (Text.fixed2 (Js.toFixed2 (Js.div (byteLength body) 1024)))) |} |}.

Definition codelists_endpoint : Endpoint.Config :=
  {| Endpoint.name := "Codelists";
     Endpoint.url :=
       "https://nsi-demo-stable.siscc.org/rest/codelist/all/all/latest?detail=allstubs";
     Endpoint.extraMetric := fun body =>
       {| label := "Codelist count";
          value := Some (MetricNumber
                     (Z.of_nat (Text.count_matches "Codelist" body))) |} |}.

Definition ENDPOINTS : list Endpoint.Config :=
  [structures_endpoint; data_query_endpoint; codelists_endpoint].

(** ** The prober (lines 201-271) *)

Module Http.
(** What [checkEndpoint] reads from a [Response]. *)
Record Response := {
  status : Z;
  content_type : option string   (* [headers.get('content-type')] *)
}.
(** [response.ok] *)
Definition ok (r : Response) : bool :=
  (200 <=? status r) && (status r <=? 299).
End Http.

(** [await response.text()], or its rejection and the clock reading taken in
    the [catch] block. *)
Inductive BodyOutcome :=
| BodyRead (text : string)
| BodyFailed (now : Z) (err : JsError).

(** [await fetch(...)]: the response and the clock reading of line 228, or
    the rejection and the clock reading of line 256.  The abort fired by the
    timer rejects with an error named [AbortError]. *)
Inductive FetchOutcome :=
| Responded (now : Z) (response : Http.Response) (body : BodyOutcome)
| Rejected (now : Z) (err : JsError).

(** What the environment does during one call of [checkEndpoint]. *)
Record Probe := {
  iso_time : string;   (* [new Date().toISOString()], line 207 *)
  t0 : Z;              (* [Date.now()], line 222 *)
  fetched : FetchOutcome
}.

(** The probe failed: [fetch] or [response.text()] rejected. *)
Definition failed (env : Probe) : Prop :=
  match fetched env with
  | Rejected _ _ => True
  | Responded _ _ (BodyFailed _ _) => True
  | Responded _ _ (BodyRead _) => False
  end.

Definition AbortError : JsError :=
  {| err_name := "AbortError"; err_code := None;
     err_message := "This operation was aborted" |}.

(** [/xml|sdmx/i.test(contentType)] *)
Definition content_type_ok (contentType : string) : bool :=
  Text.contains "xml" (Text.lowercase contentType)
  || Text.contains "sdmx" (Text.lowercase contentType).

Definition checkEndpoint (ep : Endpoint.Config) (env : Probe)
  : ProbeResult :=
  let result :=
    {| endpoint := Endpoint.name ep;
       url := Endpoint.url ep;
       timestamp := iso_time env;
       status := None;
       ok := false;
       responseTimeMs := None;
       contentTypeValid := false;
       responseSizeKB := None;
       extraMetric :=
         {| label := label (Endpoint.extraMetric ep ""); value := None |};
       anomaly := not_detected;
       error := None |} in
  let caught (now : Z) (err : JsError) : ProbeResult :=
    let responseTime := now - t0 env in
    let errorMessage :=
      if String.eqb (err_name err) "AbortError"
      then ("Request timed out after " ++ Js.string_of_Z TIMEOUT_MS ++ "ms")%string
      else err_message err in
    {| endpoint := endpoint result; url := url result;
       timestamp := timestamp result; status := status result;
       ok := ok result;
       responseTimeMs := Some responseTime;
       contentTypeValid := contentTypeValid result;
       responseSizeKB := responseSizeKB result;
       extraMetric := extraMetric result;
       anomaly := anomaly result;
       error := Some errorMessage |} in
  match fetched env with
  | Rejected now err => caught now err
  | Responded now response body =>
    let responseTime := now - t0 env in
    match body with
    | BodyFailed now' err => caught now' err
    | BodyRead body =>
      let contentType :=
        match Http.content_type response with
        | Some ct => ct
        | None => ""%string
        end in
      {| endpoint := endpoint result; url := url result;
         timestamp := timestamp result;
         status := Some (Http.status response);
         ok := Http.ok response;
         responseTimeMs := Some responseTime;
         contentTypeValid := content_type_ok contentType;
         responseSizeKB := Some (Js.toFixed2 (Js.div (byteLength body) 1024));
         extraMetric := Endpoint.extraMetric ep body;
         anomaly := anomaly result;
         error := error result |}
    end
  end.

(** ** The log store (lines 280-310) *)

(** The file system as the script meets it: the text of the file at
    [LOG_PATH], [None] when the file is absent, and the error a write to
    that path fails with, [None] when the file can be written.  The script
    does not create the directory [data/]: where the directory is absent
    the file is absent and a write fails with [ENOENT]. *)
Record Disk := {
  file : option string;
  write_error : option JsError
}.

Definition ENOENT : JsError :=
  {| err_name := "Error"; err_code := Some "ENOENT"%string;
     err_message := "ENOENT: no such file or directory" |}.

(** [readFileSync(LOG_PATH, 'utf8')] *)
Definition readFileSync (disk : Disk) : Completion string :=
  match file disk with
  | Some raw => Return raw
  | None => Throw ENOENT
  end.

(** [writeFileSync(LOG_PATH, text, 'utf8')]: the file is replaced as a
    whole, or the call throws and the file system stays as it is. *)
Definition writeFileSync (text : string) (disk : Disk) : Completion Disk :=
  match write_error disk with
  | Some err => Throw err
  | None => Return {| file := Some text; write_error := None |}
  end.

(** What [JSON.parse] yields, as far as the script looks at it: an array of
    log entries, or a value for which [Array.isArray] is false.  An array
    with an element of another shape has no reading: what the script does
    with it depends on that element ([null] makes [detectAnomaly] throw).
    Statements about whole runs therefore take the log to be well formed
    ([holds_log]) or the run to have completed. *)
Inductive JsonValue :=
| JsonArray (entries : list ProbeResult)
| JsonOther.

(** The two functions of the global [JSON] object.  [JSON_parse] throws a
    [SyntaxError] on a text that is not JSON; [JSON_stringify] is
    [JSON.stringify(_, null, 2)] on an array of log entries. *)
Class Json := {
  JSON_parse : string -> Completion JsonValue;
  JSON_stringify : list ProbeResult -> string
}.

(** Parsing a stringified array gives the array back. *)
Definition round_trips `{Json} : Prop :=
  forall log, JSON_parse (JSON_stringify log) = Return (JsonArray log).

Section LogStore.
Context `{Json}.

Definition readLog (disk : Disk) : Completion (list ProbeResult) :=
  try_catch
    (let* raw := readFileSync disk in
     let* parsed := JSON_parse raw in
     match parsed with
     | JsonOther => Return []
     | JsonArray entries => Return entries
     end)
    (fun err => Return []).

(** The constant [trimmed] of [writeLog]. *)
Definition trimmed (log : list ProbeResult) : list ProbeResult :=
  Js.slice_last MAX_LOG_ENTRIES log.

Definition writeLog (log : list ProbeResult) (disk : Disk)
  : Completion Disk :=
  writeFileSync (JSON_stringify (trimmed log)) disk.

(** The log file is well formed and holds [entries]: its text is that of an
    array of these log entries, or it is absent and there are none. *)
Definition holds_log (disk : Disk) (entries : list ProbeResult) : Prop :=
  match file disk with
  | Some raw => JSON_parse raw = Return (JsonArray entries)
  | None => entries = []
  end.

End LogStore.

(** ** Entry point (lines 324-367) *)

(** [result.anomaly = ...] *)
Definition set_anomaly (verdict : AnomalyVerdict) (result : ProbeResult)
  : ProbeResult :=
  {| endpoint := endpoint result; url := url result;
     timestamp := timestamp result; status := status result;
     ok := ok result; responseTimeMs := responseTimeMs result;
     contentTypeValid := contentTypeValid result;
     responseSizeKB := responseSizeKB result;
     extraMetric := extraMetric result;
     anomaly := verdict;
     error := error result |}.

(** The body of the second loop of [main]. *)
Definition annotate (log : list ProbeResult) (result : ProbeResult)
  : ProbeResult :=
  set_anomaly (detectAnomaly (endpoint result) (responseTimeMs result) log)
              result.

(** [results.filter((r) => !r.ok).length] *)
Definition failCount (results : list ProbeResult) : nat :=
  List.length (filter (fun r => negb (ok r)) results).

(** [process.exit(1)] when every endpoint failed; otherwise [main] returns
    and the process ends with code 0. *)
Definition exit_code_of (results : list ProbeResult) : Z :=
  if (failCount results =? List.length results)%nat then 1 else 0.

(** A completed run: the annotated results, the file system it leaves and
    the exit code. *)
Record Run := {
  results : list ProbeResult;
  disk_after : Disk;
  exit_code : Z
}.

Section Orchestrator.
Context `{Json}.

(** [main] over an arbitrary endpoint list; [world] is what the
    environment does during the probe of each endpoint. *)
Definition run (endpoints : list Endpoint.Config)
    (world : Endpoint.Config -> Probe) (disk : Disk) : Completion Run :=
  let results := map (fun ep => checkEndpoint ep (world ep)) endpoints in
  let* log := readLog disk in
  let results := map (annotate log) results in
  let log := log ++ results in
  let* disk := writeLog log disk in
  Return {| results := results; disk_after := disk;
            exit_code := exit_code_of results |}.

Definition main : (Endpoint.Config -> Probe) -> Disk -> Completion Run :=
  run ENDPOINTS.

(** The exit code of the process: that of the run, or 1 when an error
    escapes [main] and reaches the handler of line 364. *)
Definition process_exit_code (outcome : Completion Run) : Z :=
  match outcome with
  | Return r => exit_code r
  | Throw _ => 1
  end.

End Orchestrator.

(** ** Environments for examples *)

(** No log file yet, in a directory that can be written. *)
Definition absent : Disk := {| file := None; write_error := None |}.

(** A log file with the text [raw]. *)
Definition holding (raw : string) : Disk :=
  {| file := Some raw; write_error := None |}.


(** The endpoint answers after [elapsed] ms. *)
Definition answers (elapsed : Z) (status : Z) (contentType body : string)
  : Probe :=
  {| iso_time := "2025-03-01T06:00:00.000Z"; t0 := 1740808800000;
     fetched :=
       Responded (1740808800000 + elapsed)
         {| Http.status := status; Http.content_type := Some contentType |}
         (BodyRead body) |}.

(** The timer aborts the request, [elapsed] ms after the start. *)
Definition times_out (elapsed : Z) : Probe :=
  {| iso_time := "2025-03-01T06:00:00.000Z"; t0 := 1740808800000;
     fetched := Rejected (1740808800000 + elapsed) AbortError |}.

(** The connection fails after [elapsed] ms. *)
Definition refuses (elapsed : Z) : Probe :=
  {| iso_time := "2025-03-01T06:00:00.000Z"; t0 := 1740808800000;
     fetched :=
       Rejected (1740808800000 + elapsed)
         {| err_name := "TypeError"; err_code := None;
            err_message := "fetch failed" |} |}.

(** A world in which [Structures] behaves as [p] and the other endpoints
    answer in 120 ms. *)
Definition world_with (p : Probe) (ep : Endpoint.Config) : Probe :=
  if String.eqb (Endpoint.name ep) "Structures" then p
  else answers 120 200 "application/xml" "<Codelist/>".

(** ** A reference implementation of [Json]

    The text [JSON.stringify(log, null, 2)] writes for an array of log
    entries, and a parser for it.  The parser accepts such arrays with any
    JSON whitespace between tokens, and classifies every other JSON document
    whose top-level value is not an array as [JsonOther].  Arrays of other
    shapes have no typed reading and are rejected, as are [\u] escapes
    beyond ASCII. *)

Module ReferenceJson.

Local Open Scope char_scope.

Definition text := list ascii.
Definition chars (s : string) : text := list_ascii_of_string s.

Definition dquote : ascii := "034".
Definition backslash : ascii := "092".
Definition newline : ascii := "010".
Definition space : ascii := " ".

(** *** Printing

    A printer puts its text in front of the text that follows. *)

Definition printer := text -> text.

Fixpoint print_uint (d : Decimal.uint) : printer := fun rest =>
  match d with
  | Decimal.Nil => rest
  | Decimal.D0 d => "0" :: print_uint d rest
  | Decimal.D1 d => "1" :: print_uint d rest
  | Decimal.D2 d => "2" :: print_uint d rest
  | Decimal.D3 d => "3" :: print_uint d rest
  | Decimal.D4 d => "4" :: print_uint d rest
  | Decimal.D5 d => "5" :: print_uint d rest
  | Decimal.D6 d => "6" :: print_uint d rest
  | Decimal.D7 d => "7" :: print_uint d rest
  | Decimal.D8 d => "8" :: print_uint d rest
  | Decimal.D9 d => "9" :: print_uint d rest
  end.

Definition print_N (n : N) : printer := print_uint (N.to_uint n).

Definition print_sign (z : Z) : printer := fun rest =>
  if (z <? 0)%Z then "-" :: rest else rest.

Definition print_Z (z : Z) : printer := fun rest =>
  print_sign z (print_N (Z.abs_N z) rest).

Definition digit (k : Z) : ascii := ascii_of_nat (48 + Z.to_nat k).

(** A number with two fraction digits prints without trailing zeros. *)
Definition print_fraction (f : Z) : printer := fun rest =>
  if (f =? 0)%Z then rest
  else "." :: digit (f / 10)
           :: (if (f mod 10 =? 0)%Z then rest else digit (f mod 10) :: rest).

Definition print_fixed2 (d : Js.Fixed2) : printer := fun rest =>
  let n := Js.hundredths d in
  print_sign n (print_N (Z.abs_N n / 100)
                  (print_fraction (Z.abs n mod 100) rest)).

Definition hex_digit (n : nat) : ascii :=
  if (n <? 10)%nat then ascii_of_nat (48 + n) else ascii_of_nat (87 + n).

Definition escape_char (c : ascii) : text :=
  let n := nat_of_ascii c in
  if Ascii.eqb c dquote then [backslash; dquote]
  else if Ascii.eqb c backslash then [backslash; backslash]
  else if (n =? 8)%nat then [backslash; "b"]
  else if (n =? 9)%nat then [backslash; "t"]
  else if (n =? 10)%nat then [backslash; "n"]
  else if (n =? 12)%nat then [backslash; "f"]
  else if (n =? 13)%nat then [backslash; "r"]
  else if (n <? 32)%nat then
    [backslash; "u"; "0"; "0"; hex_digit (n / 16); hex_digit (n mod 16)]
  else [c].

Definition print_string (s : string) : printer := fun rest =>
  dquote :: flat_map escape_char (chars s) ++ dquote :: rest.

Definition print_bool (b : bool) : printer := fun rest =>
  if b then chars "true" ++ rest else chars "false" ++ rest.

Definition print_nullable {A : Type} (pr : A -> printer) (o : option A)
  : printer := fun rest =>
  match o with
  | Some a => pr a rest
  | None => chars "null" ++ rest
  end.

Definition indent (n : nat) : printer := fun rest =>
  newline :: repeat space n ++ rest.

Definition print_key (k : string) : printer := fun rest =>
  dquote :: chars k ++ dquote :: rest.

Definition field (n : nat) (k : string) (v : printer) : printer :=
  fun rest => indent n (print_key k (":" :: space :: v rest)).

(** A key the object literal may leave out. *)
Definition opt_field {A : Type} (n : nat) (k : string) (pr : A -> printer)
    (o : option A) : printer := fun rest =>
  match o with
  | Some a => "," :: field n k (pr a) rest
  | None => rest
  end.

Definition print_metric_value (v : MetricValue) : printer :=
  match v with
  | MetricNumber n => print_Z n
  | MetricString s => print_string s
  end.

Definition print_metric (m : ExtraMetric) : printer := fun rest =>
  "{" :: field 6 "label" (print_string (label m))
  ("," :: field 6 "value" (print_nullable print_metric_value (value m))
  (indent 4 ("}" :: rest))).

Definition severity_name (s : Severity) : string :=
  match s with
  | warning => "warning"
  | critical => "critical"
  end.

Definition print_severity (s : Severity) : printer :=
  print_string (severity_name s).

Definition print_verdict (v : AnomalyVerdict) : printer := fun rest =>
  "{" :: field 6 "detected" (print_bool (detected v))
  (opt_field 6 "rollingAvgMs" print_Z (rollingAvgMs v)
  (opt_field 6 "deviationFactor" print_fixed2 (deviationFactor v)
  (opt_field 6 "severity" print_severity (severity v)
  (indent 4 ("}" :: rest))))).

Definition print_entry (r : ProbeResult) : printer := fun rest =>
  "{" :: field 4 "endpoint" (print_string (endpoint r))
  ("," :: field 4 "url" (print_string (url r))
  ("," :: field 4 "timestamp" (print_string (timestamp r))
  ("," :: field 4 "status" (print_nullable print_Z (status r))
  ("," :: field 4 "ok" (print_bool (ok r))
  ("," :: field 4 "responseTimeMs" (print_nullable print_Z (responseTimeMs r))
  ("," :: field 4 "contentTypeValid" (print_bool (contentTypeValid r))
  ("," :: field 4 "responseSizeKB"
            (print_nullable print_fixed2 (responseSizeKB r))
  ("," :: field 4 "extraMetric" (print_metric (extraMetric r))
  ("," :: field 4 "anomaly" (print_verdict (anomaly r))
  ("," :: field 4 "error" (print_nullable print_string (error r))
  (indent 2 ("}" :: rest)))))))))))).

Fixpoint print_more (log : list ProbeResult) : printer := fun rest =>
  match log with
  | [] => indent 0 ("]" :: rest)
  | r :: log' => "," :: indent 2 (print_entry r (print_more log' rest))
  end.

Definition print_log (log : list ProbeResult) : text :=
  match log with
  | [] => chars "[]"
  | r :: log' => "[" :: indent 2 (print_entry r (print_more log' []))
  end.

(** *** Parsing

    A parser returns its value and the text left, or [None]. *)

Definition is_ws (c : ascii) : bool :=
  Ascii.eqb c space || Ascii.eqb c newline
  || Ascii.eqb c "009" || Ascii.eqb c "013".

Fixpoint skip_ws (s : text) : text :=
  match s with
  | c :: s' => if is_ws c then skip_ws s' else s
  | [] => []
  end.

Fixpoint strip (l s : text) : option text :=
  match l, s with
  | [], _ => Some s
  | a :: l', b :: s' => if Ascii.eqb a b then strip l' s' else None
  | _ :: _, [] => None
  end.

(** A literal, after whitespace. *)
Definition lit (l : text) (s : text) : option text := strip l (skip_ws s).

Definition tok (c : ascii) : text -> option text := lit [c].

Definition after {B : Type} (p : option text) (k : text -> option B)
  : option B :=
  match p with
  | Some r => k r
  | None => None
  end.

Definition with_value {A B : Type} (p : option (A * text))
    (k : A -> text -> option B) : option B :=
  match p with
  | Some (a, r) => k a r
  | None => None
  end.

Notation "p >> k" := (after p k) (at level 61, right associativity).
Notation "p >>= k" := (with_value p k) (at level 61, right associativity).

Definition p_key (k : string) (s : text) : option text :=
  lit (print_key k []) s >> tok ":".

Definition digit_con (c : ascii) : option (Decimal.uint -> Decimal.uint) :=
  if Ascii.eqb c "0" then Some Decimal.D0
  else if Ascii.eqb c "1" then Some Decimal.D1
  else if Ascii.eqb c "2" then Some Decimal.D2
  else if Ascii.eqb c "3" then Some Decimal.D3
  else if Ascii.eqb c "4" then Some Decimal.D4
  else if Ascii.eqb c "5" then Some Decimal.D5
  else if Ascii.eqb c "6" then Some Decimal.D6
  else if Ascii.eqb c "7" then Some Decimal.D7
  else if Ascii.eqb c "8" then Some Decimal.D8
  else if Ascii.eqb c "9" then Some Decimal.D9
  else None.

Definition is_digit (c : ascii) : bool :=
  match digit_con c with Some _ => true | None => false end.

Definition digit_value (c : ascii) : option Z :=
  if is_digit c then Some (Z.of_nat (nat_of_ascii c - 48)) else None.

Fixpoint parse_digits (s : text) : Decimal.uint * text :=
  match s with
  | c :: s' =>
    match digit_con c with
    | Some D => let (d, r) := parse_digits s' in (D d, r)
    | None => (Decimal.Nil, s)
    end
  | [] => (Decimal.Nil, [])
  end.

Definition p_unsigned (s : text) : option (N * text) :=
  match parse_digits s with
  | (Decimal.Nil, _) => None
  | (d, r) => Some (N.of_uint d, r)
  end.

Definition p_sign (s : text) : bool * text :=
  match s with
  | c :: r => if Ascii.eqb c "-" then (true, r) else (false, s)
  | [] => (false, s)
  end.

Definition signed (neg : bool) (z : Z) : Z := if neg then (- z)%Z else z.

Definition p_Z (s : text) : option (Z * text) :=
  let (neg, s1) := p_sign (skip_ws s) in
  p_unsigned s1 >>= fun n r => Some (signed neg (Z.of_N n), r).

(** At most two fraction digits, in hundredths. *)
Definition p_fraction (s : text) : option (Z * text) :=
  match s with
  | c :: s1 =>
    if Ascii.eqb c "." then
      match s1 with
      | c1 :: r1 =>
        match digit_value c1 with
        | None => None
        | Some v1 =>
          match r1 with
          | c2 :: r2 =>
            match digit_value c2 with
            | Some v2 => Some (v1 * 10 + v2, r2)%Z
            | None => Some (v1 * 10, r1)%Z
            end
          | [] => Some (v1 * 10, r1)%Z
          end
        end
      | [] => None
      end
    else Some (0%Z, s)
  | [] => Some (0%Z, s)
  end.

Definition p_fixed2 (s : text) : option (Js.Fixed2 * text) :=
  let (neg, s1) := p_sign (skip_ws s) in
  p_unsigned s1 >>= fun n r =>
  p_fraction r >>= fun f r' =>
  Some ({| Js.hundredths := signed neg (Z.of_N n * 100 + f) |}, r').

Definition hex_value (c : ascii) : option nat :=
  let n := nat_of_ascii c in
  if ((48 <=? n) && (n <=? 57))%nat then Some (n - 48)%nat
  else if ((97 <=? n) && (n <=? 102))%nat then Some (n - 87)%nat
  else if ((65 <=? n) && (n <=? 70))%nat then Some (n - 55)%nat
  else None.

Definition hex4 (h1 h2 h3 h4 : ascii) : option nat :=
  match hex_value h1, hex_value h2, hex_value h3, hex_value h4 with
  | Some a, Some b, Some c, Some d =>
    Some (((a * 16 + b) * 16 + c) * 16 + d)%nat
  | _, _, _, _ => None
  end.

Definition unescape (e : ascii) : option ascii :=
  if Ascii.eqb e dquote then Some dquote
  else if Ascii.eqb e backslash then Some backslash
  else if Ascii.eqb e "/" then Some "/"
  else if Ascii.eqb e "b" then Some "008"
  else if Ascii.eqb e "t" then Some "009"
  else if Ascii.eqb e "n" then Some "010"
  else if Ascii.eqb e "f" then Some "012"
  else if Ascii.eqb e "r" then Some "013"
  else None.

Definition push (c : ascii) (p : option (text * text)) : option (text * text) :=
  match p with
  | Some (l, r) => Some (c :: l, r)
  | None => None
  end.

(** The characters of a string literal, from behind its opening quote. *)
Fixpoint parse_string_body (s : text) : option (text * text) :=
  match s with
  | [] => None
  | c :: s1 =>
    if Ascii.eqb c dquote then Some ([], s1)
    else if Ascii.eqb c backslash then
      match s1 with
      | [] => None
      | e :: s2 =>
        if Ascii.eqb e "u" then
          match s2 with
          | h1 :: h2 :: h3 :: h4 :: s3 =>
            match hex4 h1 h2 h3 h4 with
            | Some n =>
              if (n <? 128)%nat
              then push (ascii_of_nat n) (parse_string_body s3)
              else None
            | None => None
            end
          | _ => None
          end
        else
          match unescape e with
          | Some ch => push ch (parse_string_body s2)
          | None => None
          end
      end
    else if (nat_of_ascii c <? 32)%nat then None
    else push c (parse_string_body s1)
  end.

Definition p_string (s : text) : option (string * text) :=
  tok dquote s >> fun r =>
  parse_string_body r >>= fun l r' => Some (string_of_list_ascii l, r').

Definition p_bool (s : text) : option (bool * text) :=
  match lit (chars "true") s with
  | Some r => Some (true, r)
  | None => lit (chars "false") s >> fun r => Some (false, r)
  end.

Definition p_nullable {A : Type} (p : text -> option (A * text)) (s : text)
  : option (option A * text) :=
  match lit (chars "null") s with
  | Some r => Some (None, r)
  | None => p s >>= fun a r => Some (Some a, r)
  end.

Definition p_metric_value (s : text) : option (MetricValue * text) :=
  match tok dquote s with
  | Some _ => p_string s >>= fun v r => Some (MetricString v, r)
  | None => p_Z s >>= fun n r => Some (MetricNumber n, r)
  end.

Definition p_severity (s : text) : option (Severity * text) :=
  p_string s >>= fun v r =>
  if String.eqb v "warning" then Some (warning, r)
  else if String.eqb v "critical" then Some (critical, r)
  else None.

Definition p_field {A : Type} (k : string) (p : text -> option (A * text))
    (s : text) : option (A * text) :=
  p_key k s >> p.

Definition p_next {A : Type} (k : string) (p : text -> option (A * text))
    (s : text) : option (A * text) :=
  tok "," s >> p_field k p.

(** The key [k] if it comes next, nothing otherwise. *)
Definition p_opt_field {A : Type} (k : string)
    (p : text -> option (A * text)) (s : text) : option (option A * text) :=
  match tok "," s >> p_key k with
  | Some r => p r >>= fun a r' => Some (Some a, r')
  | None => Some (None, s)
  end.

Definition p_metric (s : text) : option (ExtraMetric * text) :=
  tok "{" s >> fun s =>
  p_field "label" p_string s >>= fun l s =>
  p_next "value" (p_nullable p_metric_value) s >>= fun v s =>
  tok "}" s >> fun s =>
  Some ({| label := l; value := v |}, s).

Definition p_verdict (s : text) : option (AnomalyVerdict * text) :=
  tok "{" s >> fun s =>
  p_field "detected" p_bool s >>= fun d s =>
  p_opt_field "rollingAvgMs" p_Z s >>= fun avg s =>
  p_opt_field "deviationFactor" p_fixed2 s >>= fun f s =>
  p_opt_field "severity" p_severity s >>= fun sev s =>
  tok "}" s >> fun s =>
  Some ({| detected := d; rollingAvgMs := avg; deviationFactor := f;
           severity := sev |}, s).

Definition p_entry (s : text) : option (ProbeResult * text) :=
  tok "{" s >> fun s =>
  p_field "endpoint" p_string s >>= fun v1 s =>
  p_next "url" p_string s >>= fun v2 s =>
  p_next "timestamp" p_string s >>= fun v3 s =>
  p_next "status" (p_nullable p_Z) s >>= fun v4 s =>
  p_next "ok" p_bool s >>= fun v5 s =>
  p_next "responseTimeMs" (p_nullable p_Z) s >>= fun v6 s =>
  p_next "contentTypeValid" p_bool s >>= fun v7 s =>
  p_next "responseSizeKB" (p_nullable p_fixed2) s >>= fun v8 s =>
  p_next "extraMetric" p_metric s >>= fun v9 s =>
  p_next "anomaly" p_verdict s >>= fun v10 s =>
  p_next "error" (p_nullable p_string) s >>= fun v11 s =>
  tok "}" s >> fun s =>
  Some ({| endpoint := v1; url := v2; timestamp := v3; status := v4;
           ok := v5; responseTimeMs := v6; contentTypeValid := v7;
           responseSizeKB := v8; extraMetric := v9; anomaly := v10;
           error := v11 |}, s).

(** The entries after the first, up to the closing bracket. *)
Fixpoint p_more (fuel : nat) (s : text) : option (list ProbeResult * text) :=
  match fuel with
  | O => None
  | S fuel' =>
    match tok "]" s with
    | Some r => Some ([], r)
    | None =>
      tok "," s >> fun s =>
      p_entry s >>= fun e s =>
      p_more fuel' s >>= fun l s => Some (e :: l, s)
    end
  end.

Definition p_log (s : text) : option (list ProbeResult * text) :=
  tok "[" s >> fun s =>
  match tok "]" s with
  | Some r => Some ([], r)
  | None =>
    p_entry s >>= fun e s =>
    p_more (S (List.length s)) s >>= fun l s => Some (e :: l, s)
  end.

(** *** Recognising the other JSON documents *)

Fixpoint skip_digits (s : text) : text :=
  match s with
  | c :: s' => if is_digit c then skip_digits s' else s
  | [] => []
  end.

Definition digits1 (s : text) : option text :=
  match s with
  | c :: s' => if is_digit c then Some (skip_digits s') else None
  | [] => None
  end.

Definition skip_exponent (s : text) : option text :=
  match s with
  | c :: s1 =>
    if Ascii.eqb c "e" || Ascii.eqb c "E" then
      match s1 with
      | c1 :: s2 =>
        if Ascii.eqb c1 "+" || Ascii.eqb c1 "-" then digits1 s2
        else digits1 s1
      | [] => None
      end
    else Some s
  | [] => Some s
  end.

Definition skip_number (s : text) : option text :=
  let (_, s1) := p_sign s in
  digits1 s1 >> fun s2 =>
  match s2 with
  | c :: s3 =>
    if Ascii.eqb c "." then digits1 s3 >> skip_exponent
    else skip_exponent s2
  | [] => Some s2
  end.

Definition skip_string (s : text) : option text :=
  tok dquote s >> fun r => parse_string_body r >>= fun _ r' => Some r'.

Fixpoint skip_value (fuel : nat) (s : text) : option text :=
  match fuel with
  | O => None
  | S fuel' =>
    match skip_ws s with
    | [] => None
    | c :: r =>
      if Ascii.eqb c "{" then
        match tok "}" r with
        | Some r' => Some r'
        | None => skip_members fuel' r
        end
      else if Ascii.eqb c "[" then
        match tok "]" r with
        | Some r' => Some r'
        | None => skip_elements fuel' r
        end
      else if Ascii.eqb c dquote then skip_string (c :: r)
      else if Ascii.eqb c "t" then strip (chars "true") (c :: r)
      else if Ascii.eqb c "f" then strip (chars "false") (c :: r)
      else if Ascii.eqb c "n" then strip (chars "null") (c :: r)
      else skip_number (c :: r)
    end
  end
with skip_members (fuel : nat) (s : text) : option text :=
  match fuel with
  | O => None
  | S fuel' =>
    skip_string s >> fun s =>
    tok ":" s >> fun s =>
    skip_value fuel' s >> fun s =>
    match tok "}" s with
    | Some r => Some r
    | None => tok "," s >> skip_members fuel'
    end
  end
with skip_elements (fuel : nat) (s : text) : option text :=
  match fuel with
  | O => None
  | S fuel' =>
    skip_value fuel' s >> fun s =>
    match tok "]" s with
    | Some r => Some r
    | None => tok "," s >> skip_elements fuel'
    end
  end.

Definition SyntaxError : JsError :=
  {| err_name := "SyntaxError"; err_code := None;
     err_message := "Unexpected token in JSON" |}.

Definition at_end (s : text) : bool :=
  match skip_ws s with [] => true | _ :: _ => false end.

Definition parse (raw : string) : Completion JsonValue :=
  let s := chars raw in
  match tok "[" s with
  | Some _ =>
    match p_log s with
    | Some (log, r) =>
      if at_end r then Return (JsonArray log) else Throw SyntaxError
    | None => Throw SyntaxError
    end
  | None =>
    match skip_value (S (List.length s)) s with
    | Some r => if at_end r then Return JsonOther else Throw SyntaxError
    | None => Throw SyntaxError
    end
  end.

Definition stringify (log : list ProbeResult) : string :=
  string_of_list_ascii (print_log log).

Definition json : Json :=
  {| JSON_parse := parse; JSON_stringify := stringify |}.

(** *** Side conditions of the round trip *)

(** The text after a number does not go on with a digit... *)
Definition no_digit (rest : text) : bool :=
  match rest with
  | c :: _ => negb (is_digit c)
  | [] => true
  end.

(** ... nor with a fraction. *)
Definition ends_number (rest : text) : bool :=
  match rest with
  | c :: _ => negb (is_digit c) && negb (Ascii.eqb c ".")
  | [] => true
  end.

(** The first character of a number. *)
Definition number_start (c : ascii) : Prop := c = "-" \/ is_digit c = true.

(** Printers only add text in front. *)
Definition grows (p : printer) : Prop :=
  forall rest, (List.length rest <= List.length (p rest))%nat.

End ReferenceJson.


(** * Properties *)

(** ** The definitions on small inputs *)

Example Math_round_ties :
  map Js.Math_round [5 # 2; - (5 # 2); - (1 # 2); 7 # 5; 0]%Q = [3; -2; 0; 1; 0].
Proof. reflexivity. Qed.

Example toFixed2_ties :
  map (fun x => Js.hundredths (Js.toFixed2 x))
      [Js.div 399 200; Js.div 599 200; Js.div 1197 400; Js.div (-1) 200;
       Js.div 350 100]
  = [200; 300; 299; -1; 350].
Proof. reflexivity. Qed.

(** Sums and quotients agree with the Standard Library's specification of
    binary64 arithmetic, also where integers are beyond [2^53], where the
    quotient is subnormal and where the sum overflows. *)
Example round64_agrees_with_SpecFloat :
  let pairs :=
    [(401, 200); (81, 40); (2394000000000397, 1200000000000199); (1, 3);
     (2, 3); (-1, 3); (1, 10); (7, -10); (-599, -200); (0, 7);
     (9007199254740991, 5); (9007199254740993, 7); (1, 9007199254740993);
     (36028797018963965, 4); (2 ^ 1023, 3); (3, 2 ^ 1023);
     (2 ^ 1024 - 2 ^ 970, 1); (1, 2 ^ 1023 + 2 ^ 1000);
     (5, 2 ^ 1023 + 12345); (2 ^ 1023, 2 ^ 1023); (- 2 ^ 1023, - 2 ^ 1023);
     (2 ^ 1024, 2); (123456789, 1000); (2 ^ 60 + 1, 3)] in
  map (fun '(a, b) => Js.divide (Js.of_Z a) (Js.of_Z b)) pairs
  = map (fun '(a, b) =>
           Js.of_spec_float
             (SpecFloat.SFdiv 53 1024 (Js.spec_of_Z a) (Js.spec_of_Z b)))
        pairs
  /\ map (fun '(a, b) => Js.add (Js.of_Z a) (Js.of_Z b)) pairs
     = map (fun '(a, b) =>
              Js.of_spec_float
                (SpecFloat.SFadd 53 1024 (Js.spec_of_Z a) (Js.spec_of_Z b)))
           pairs.
Proof. cbv zeta. split; vm_compute; reflexivity. Qed.

(** The detector on doubles: 2.005 and 2.025 are not doubles, and the
    doubles nearest to them lie below them; near [10^15] an exact quotient
    below 1.995 rounds to a double above it; the sum of five samples of
    [2^53 - 1] is rounded. *)
Example detector_on_doubles :
  map (fun '(c, avg) => Js.hundredths (deviation c avg))
      [(401, 200); (81, 40); (2394000000000397, 1200000000000199)]
  = [200; 202; 200]
  /\ rolling_average (repeat (entry_of "A" (Some 9007199254740991)) 5)
     = 9007199254740990
  /\ severity
       (detectAnomaly "A" (Some 2394000000000397)
          (repeat (entry_of "A" (Some 1200000000000199)) 5))
     = Some warning.
Proof. repeat split; vm_compute; reflexivity. Qed.

Example slice_last_examples :
  Js.slice_last 2 [1; 2; 3] = [2; 3]
  /\ Js.slice_last 5 [1; 2; 3] = [1; 2; 3]
  /\ Js.slice_last 0 [1; 2; 3] = [1; 2; 3].
Proof. repeat split. Qed.

Example count_matches_examples :
  Text.count_matches "DataStructure"
    "<DataStructure id=1/><DataStructures><Codelist/>" = 2%nat
  /\ Text.count_matches "aa" "aaaaa" = 2%nat
  /\ Text.count_matches "Codelist" "" = 0%nat.
Proof. repeat split. Qed.

Example content_type_examples :
  map content_type_ok
      ["application/vnd.sdmx.structure+xml; version=2.1"; "Application/XML";
       "text/html"; ""]%string
  = [true; true; false; false].
Proof. reflexivity. Qed.

Example metric_of_size :
  Endpoint.extraMetric data_query_endpoint "<Codelist/>"
  = {| label := "Response size KB"; value := Some (MetricString "0.01") |}.
Proof. reflexivity. Qed.

(** Scenario A of the specification: an empty log, one endpoint answering
    200 in 120 ms with an XML content type. *)
Example scenario_A :
  let r := annotate [] (checkEndpoint structures_endpoint
                          (answers 120 200 "application/xml" "<DataStructure/>")) in
  ok r = true /\ contentTypeValid r = true /\ responseTimeMs r = Some 120
  /\ anomaly r = not_detected /\ error r = None
  /\ value (extraMetric r) = Some (MetricNumber 1).
Proof. cbv zeta. repeat split. Qed.

Example parse_examples :
  map ReferenceJson.parse ["[]"; " [ ] "; "null"; "{}"; "-12.5e3"]%string
  = [Return (JsonArray []); Return (JsonArray []); Return JsonOther;
     Return JsonOther; Return JsonOther]
  /\ map ReferenceJson.parse ["{oops"; ""; "[1]"; "[] x"; "tru"]%string
     = repeat (Throw ReferenceJson.SyntaxError) 5.
Proof. split; reflexivity. Qed.

Example stringify_parse_example :
  ReferenceJson.parse
    (ReferenceJson.stringify
       [checkEndpoint structures_endpoint (times_out 15001);
        annotate (repeat (entry_of "Codelists" (Some 40)) 6)
          (checkEndpoint codelists_endpoint
             (answers 120 200 "text/xml" "<Codelist/>"))])
  = Return (JsonArray
       [checkEndpoint structures_endpoint (times_out 15001);
        annotate (repeat (entry_of "Codelists" (Some 40)) 6)
          (checkEndpoint codelists_endpoint
             (answers 120 200 "text/xml" "<Codelist/>"))]).
Proof. vm_compute. reflexivity. Qed.

(** ** Arithmetic of the runtime fragment *)

Lemma Qmake_100 (n : Z) : (n # 100 == inject_Z n * (1 # 100))%Q.
Proof. unfold Qeq; simpl. lia. Qed.

Lemma floor_half_bounds (y : Q) :
  (inject_Z (Qfloor (y + (1 # 2))) <= y + (1 # 2)
   /\ y - (1 # 2) < inject_Z (Qfloor (y + (1 # 2))))%Q.
Proof.
  split.
  - apply Qfloor_le.
  - pose proof (Qlt_floor (y + (1 # 2))) as H.
    rewrite inject_Z_plus in H.
    generalize dependent (inject_Z (Qfloor (y + (1 # 2)))).
    intros q H. unfold inject_Z in H. lra.
Qed.

(** [toFixed(2)] is within half a hundredth of its argument. *)
Lemma toFixed2_close (x : Q) :
  (Qabs (Js.parseFloat (Js.toFixed2 x) - x) <= 1 # 200)%Q.
Proof.
  unfold Js.parseFloat, Js.toFixed2; cbn [Js.hundredths].
  apply Qabs_Qle_condition.
  destruct (Qle_bool 0 x) eqn:Hx.
  - rewrite Qmake_100.
    destruct (floor_half_bounds (100 * x)) as [Hle Hlt].
    generalize dependent (inject_Z (Qfloor (100 * x + (1 # 2)))).
    intros q Hle Hlt. split; lra.
  - rewrite Qmake_100, inject_Z_opp.
    destruct (floor_half_bounds (100 * - x)) as [Hle Hlt].
    generalize dependent (inject_Z (Qfloor (100 * - x + (1 # 2)))).
    intros q Hle Hlt. split; lra.
Qed.

(** [Math.round] of a non-negative number is non-negative. *)
Lemma Math_round_nonneg (x : Q) : (0 <= x)%Q -> 0 <= Js.Math_round x.
Proof.
  intros Hx. unfold Js.Math_round.
  change 0 with (Qfloor 0). apply Qfloor_resp_le. lra.
Qed.

(** ** Doubles

    [Js.round64] keeps the order, is exact on the integers below [2^53] and
    is within half an ulp of its argument. *)

Module Binary64.
Import Js.
Local Open Scope Q_scope.

Lemma pow2_pos e : 0 < pow2 e.
Proof. apply Qpower_0_lt. reflexivity. Qed.

Lemma pow2_add a b : pow2 (a + b) == pow2 a * pow2 b.
Proof. apply Qpower_plus. discriminate. Qed.

Lemma pow2_le a b : (a <= b)%Z -> pow2 a <= pow2 b.
Proof. intros. apply Qpower_le_compat_l; [assumption | discriminate]. Qed.

Lemma pow2_lt a b : (a < b)%Z -> pow2 a < pow2 b.
Proof. intros. apply Qpower_lt_compat_l; [assumption | reflexivity]. Qed.

Lemma pow2_lt_inv a b : pow2 a < pow2 b -> (a < b)%Z.
Proof. intros. apply (Qpower_lt_compat_l_inv 2); [assumption | reflexivity]. Qed.

Lemma pow2_Z k : (0 <= k)%Z -> pow2 k == inject_Z (2 ^ k).
Proof. intros. unfold pow2. rewrite Zpower_Qpower by assumption. reflexivity. Qed.

Lemma pow2_sub a b : pow2 (a - b) * pow2 b == pow2 a.
Proof. rewrite <- pow2_add. replace (a - b + b)%Z with a by ring. reflexivity. Qed.

(** The binade of a positive rational *)
Lemma binade_spec q : 0 < q -> pow2 (binade q) <= q /\ q < pow2 (binade q + 1).
Proof.
  intros Hq. destruct q as [n d]. unfold binade. cbn [Qnum Qden].
  assert (Hn : (0 < n)%Z) by (unfold Qlt in Hq; cbn in Hq; lia).
  destruct (Z.log2_spec n Hn) as [Hn1 Hn2].
  destruct (Z.log2_spec (Zpos d) (Pos2Z.is_pos d)) as [Hd1 Hd2].
  assert (Hln : (0 <= Z.log2 n)%Z) by apply Z.log2_nonneg.
  assert (Hld : (0 <= Z.log2 (Zpos d))%Z) by apply Z.log2_nonneg.
  generalize dependent (Z.log2 n). intros ln Hn1 Hn2 Hln.
  generalize dependent (Z.log2 (Zpos d)). intros ld Hd1 Hd2 Hld.
  assert (Hlo : pow2 (ln - ld - 1) < n # d).
  { apply Qmult_lt_r with (z := pow2 (ld + 1)); [apply pow2_pos |].
    rewrite <- pow2_add. replace (ln - ld - 1 + (ld + 1))%Z with ln by ring.
    rewrite !pow2_Z by lia.
    unfold Qlt, Qle, Qmult, inject_Z in *; cbn.
    rewrite ?Z.mul_1_r, ?Pos.mul_1_r.
    apply Z.le_lt_trans with (n * Zpos d)%Z; [nia |].
    apply Z.mul_lt_mono_pos_l; lia. }
  assert (Hhi : n # d < pow2 (ln - ld + 1)).
  { apply Qmult_lt_r with (z := pow2 ld); [apply pow2_pos |].
    rewrite <- pow2_add. replace (ln - ld + 1 + ld)%Z with (ln + 1)%Z by ring.
    rewrite !pow2_Z by lia.
    unfold Qlt, Qle, Qmult, inject_Z in *; cbn.
    rewrite ?Z.mul_1_r, ?Pos.mul_1_r.
    apply Z.le_lt_trans with (n * Zpos d)%Z; [|nia].
    apply Z.mul_le_mono_nonneg_l; lia. }
  destruct (Qle_bool (pow2 (ln - ld)) (n # d)) eqn:E.
  - apply Qle_bool_iff in E. split; assumption.
  - assert (~ pow2 (ln - ld) <= n # d).
    { intro C. apply Qle_bool_iff in C. congruence. }
    replace (ln - ld - 1 + 1)%Z with (ln - ld)%Z by ring.
    split; [apply Qlt_le_weak; assumption | apply Qnot_le_lt; assumption].
Qed.

Lemma binade_mono q q' : 0 < q -> q <= q' -> (binade q <= binade q')%Z.
Proof.
  intros Hq Hle.
  destruct (binade_spec q Hq) as [H1 _].
  destruct (binade_spec q') as [_ H2]; [eapply Qlt_le_trans; eassumption |].
  assert (pow2 (binade q) < pow2 (binade q' + 1)).
  { eapply Qle_lt_trans; [eassumption |]. eapply Qle_lt_trans; eassumption. }
  apply pow2_lt_inv in H. lia.
Qed.

(** Rounding to the nearest integer, ties to even *)
Lemma round_even_cases x :
  (round_even x = Qfloor x /\ x - inject_Z (Qfloor x) <= 1 # 2) \/
  (round_even x = (Qfloor x + 1)%Z /\ 1 # 2 <= x - inject_Z (Qfloor x)).
Proof.
  unfold round_even.
  destruct (Qcompare_spec (x - inject_Z (Qfloor x)) (1 # 2)) as [E|E|E].
  - destruct (Z.even (Qfloor x)); [left | right]; split; trivial;
      rewrite E; apply Qle_refl.
  - left. split; [reflexivity | apply Qlt_le_weak; assumption].
  - right. split; [reflexivity | apply Qlt_le_weak; assumption].
Qed.

Lemma floor_bounds x : inject_Z (Qfloor x) <= x /\ x < inject_Z (Qfloor x) + 1.
Proof.
  split; [apply Qfloor_le |].
  pose proof (Qlt_floor x) as H. rewrite inject_Z_plus in H. exact H.
Qed.

Lemma round_even_mono x y : x <= y -> (round_even x <= round_even y)%Z.
Proof.
  intros Hxy. pose proof (Qfloor_resp_le _ _ Hxy) as Hf.
  destruct (Z.eq_dec (Qfloor x) (Qfloor y)) as [E|E].
  - unfold round_even. rewrite <- E.
    destruct (Qcompare_spec (x - inject_Z (Qfloor x)) (1 # 2)) as [Ex|Ex|Ex];
      destruct (Qcompare_spec (y - inject_Z (Qfloor x)) (1 # 2)) as [Ey|Ey|Ey];
      try (destruct (Z.even (Qfloor x))); try lia; exfalso;
      generalize dependent (inject_Z (Qfloor x)); intros; lra.
  - destruct (round_even_cases x) as [[Hx _]|[Hx _]];
      destruct (round_even_cases y) as [[Hy _]|[Hy _]]; lia.
Qed.

Lemma round_even_Z z : round_even (inject_Z z) = z.
Proof.
  unfold round_even. rewrite Qfloor_Z.
  destruct (Qcompare_spec (inject_Z z - inject_Z z) (1 # 2)) as [E|E|E];
    trivial; exfalso; generalize dependent (inject_Z z); intros; lra.
Qed.

Lemma round_even_close x : Qabs (inject_Z (round_even x) - x) <= 1 # 2.
Proof.
  destruct (floor_bounds x) as [H1 H2].
  apply Qabs_Qle_condition.
  destruct (round_even_cases x) as [[-> H]|[-> H]];
    rewrite ?inject_Z_plus; generalize dependent (inject_Z (Qfloor x));
    intros; change (inject_Z 1) with 1; split; lra.
Qed.

Lemma round_even_nonneg x : 0 <= x -> (0 <= round_even x)%Z.
Proof.
  intros H. apply round_even_mono in H.
  change 0 with (inject_Z 0) in H. rewrite round_even_Z in H. exact H.
Qed.

(** The nearest double of a rational *)
Lemma ulp_eq q : ulp q = pow2 (exponent q).
Proof. reflexivity. Qed.

Lemma ulp_pos q : 0 < ulp q.
Proof. apply pow2_pos. Qed.

Lemma nearest_eq q :
  nearest q == inject_Z (round_even (q / ulp q)) * ulp q.
Proof. unfold nearest. apply Qred_correct. Qed.

Lemma nearest_le_grid q k :
  q <= inject_Z k * ulp q -> nearest q <= inject_Z k * ulp q.
Proof.
  intros H. rewrite nearest_eq.
  apply Qmult_le_compat_r; [| apply Qlt_le_weak, ulp_pos].
  rewrite <- Zle_Qle. rewrite <- (round_even_Z k).
  apply round_even_mono. apply Qle_shift_div_r; [apply ulp_pos | exact H].
Qed.

Lemma nearest_ge_grid q k :
  inject_Z k * ulp q <= q -> inject_Z k * ulp q <= nearest q.
Proof.
  intros H. rewrite nearest_eq.
  apply Qmult_le_compat_r; [| apply Qlt_le_weak, ulp_pos].
  rewrite <- Zle_Qle. rewrite <- (round_even_Z k) at 1.
  apply round_even_mono. apply Qle_shift_div_l; [apply ulp_pos | exact H].
Qed.

Lemma pow2_grid q t :
  (exponent q <= t)%Z -> pow2 t == inject_Z (2 ^ (t - exponent q)) * ulp q.
Proof.
  intros H. rewrite ulp_eq, <- pow2_Z by lia. symmetry. apply pow2_sub.
Qed.

Lemma nearest_le_pow2 q t :
  (exponent q <= t)%Z -> q <= pow2 t -> nearest q <= pow2 t.
Proof.
  intros Ht H. rewrite (pow2_grid q t Ht) in *. apply nearest_le_grid, H.
Qed.

Lemma nearest_ge_pow2 q t :
  (exponent q <= t)%Z -> pow2 t <= q -> pow2 t <= nearest q.
Proof.
  intros Ht H. rewrite (pow2_grid q t Ht) in *. apply nearest_ge_grid, H.
Qed.

Lemma nearest_nonneg q : 0 <= q -> 0 <= nearest q.
Proof.
  intros H. rewrite nearest_eq.
  apply Qmult_le_0_compat; [| apply Qlt_le_weak, ulp_pos].
  change 0 with (inject_Z 0). rewrite <- Zle_Qle.
  apply round_even_nonneg. apply Qle_shift_div_l; [apply ulp_pos |].
  rewrite Qmult_0_l. exact H.
Qed.

Lemma nearest_mono q q' : 0 < q -> q <= q' -> nearest q <= nearest q'.
Proof.
  intros Hq Hle.
  assert (Hq' : 0 < q') by (eapply Qlt_le_trans; eassumption).
  pose proof (binade_mono q q' Hq Hle) as Hb.
  destruct (Z.eq_dec (exponent q) (exponent q')) as [E|E].
  - rewrite !nearest_eq, !ulp_eq, E.
    apply Qmult_le_compat_r; [| apply Qlt_le_weak, pow2_pos].
    rewrite <- Zle_Qle. apply round_even_mono.
    apply Qmult_le_compat_r; [exact Hle |].
    apply Qlt_le_weak, Qinv_lt_0_compat, pow2_pos.
  - assert (Hs : (exponent q < exponent q')%Z) by (unfold exponent in *; lia).
    destruct (binade_spec q Hq) as [_ Hhi].
    destruct (binade_spec q' Hq') as [Hlo _].
    apply Qle_trans with (pow2 (Z.max (binade q + 1) (exponent q))).
    + apply nearest_le_pow2; [lia |].
      apply Qle_trans with (pow2 (binade q + 1));
        [apply Qlt_le_weak, Hhi | apply pow2_le; lia].
    + apply Qle_trans with (pow2 (binade q')).
      * apply pow2_le. unfold exponent in *. lia.
      * apply nearest_ge_pow2; [unfold exponent in *; lia | exact Hlo].
Qed.

Lemma nearest_close q : Qabs (nearest q - q) <= (1 # 2) * ulp q.
Proof.
  rewrite nearest_eq.
  pose proof (round_even_close (q / ulp q)) as H.
  pose proof (ulp_pos q) as Hu.
  assert (E : inject_Z (round_even (q / ulp q)) * ulp q - q ==
              (inject_Z (round_even (q / ulp q)) - q / ulp q) * ulp q).
  { field. intro C. rewrite C in Hu. discriminate. }
  rewrite E, Qabs_Qmult, (Qabs_pos (ulp q)) by (apply Qlt_le_weak, Hu).
  apply Qmult_le_compat_r; [exact H | apply Qlt_le_weak, Hu].
Qed.


(** [round64] *)
Lemma as_Q_overflow_neg v :
  as_Q (overflow true v) == - as_Q (overflow false v).
Proof.
  unfold overflow. destruct (Qle_bool (pow2 1024) v); reflexivity.
Qed.

Lemma overflow_mono v w :
  v <= w -> as_Q (overflow false v) <= as_Q (overflow false w).
Proof.
  intros H. unfold overflow.
  destruct (Qle_bool (pow2 1024) v) eqn:Ev; destruct (Qle_bool (pow2 1024) w) eqn:Ew;
    cbn [as_Q].
  - apply Qle_refl.
  - apply Qle_bool_iff in Ev. eapply Qle_trans; eassumption.
  - apply Qlt_le_weak, Qnot_le_lt. intro C. apply Qle_bool_iff in C. congruence.
  - exact H.
Qed.

Lemma overflow_bounds v :
  0 <= v -> 0 <= as_Q (overflow false v) /\ as_Q (overflow false v) <= pow2 1024.
Proof.
  intros H. unfold overflow. destruct (Qle_bool (pow2 1024) v) eqn:Ev; cbn [as_Q].
  - split; [apply Qlt_le_weak, pow2_pos | apply Qle_refl].
  - split; [exact H |].
    apply Qlt_le_weak, Qnot_le_lt. intro C. apply Qle_bool_iff in C. congruence.
Qed.

Lemma round64_pos q : 0 < q -> round64 q = overflow false (nearest q).
Proof.
  destruct q as [[|n|n] d]; unfold Qlt; cbn; intros H; try lia. reflexivity.
Qed.

Lemma round64_neg q : q < 0 -> round64 q = overflow true (nearest (- q)).
Proof.
  destruct q as [[|n|n] d]; unfold Qlt; cbn; intros H; try lia. reflexivity.
Qed.

Lemma round64_zero q : q == 0 -> round64 q = Finite 0.
Proof.
  destruct q as [[|n|n] d]; unfold Qeq; cbn; intros H; try lia. reflexivity.
Qed.

Lemma sign_cases q : q < 0 \/ q == 0 \/ 0 < q.
Proof.
  destruct (Qlt_le_dec q 0) as [H|H]; [left; exact H |].
  apply Qle_lteq in H. destruct H as [H|H]; [right; right; exact H |].
  right; left. symmetry. exact H.
Qed.

Lemma round64_nonneg q : 0 <= q -> 0 <= as_Q (round64 q).
Proof.
  intros H. destruct (sign_cases q) as [C|[C|C]].
  - exfalso. apply (Qlt_irrefl q). eapply Qlt_le_trans; eassumption.
  - rewrite (round64_zero q C). apply Qle_refl.
  - rewrite (round64_pos q C). apply overflow_bounds, nearest_nonneg, H.
Qed.

Lemma round64_nonpos q : q <= 0 -> as_Q (round64 q) <= 0.
Proof.
  intros H. destruct (sign_cases q) as [C|[C|C]].
  - rewrite (round64_neg q C), as_Q_overflow_neg.
    assert (H0 : 0 <= - q) by lra.
    pose proof (overflow_bounds _ (nearest_nonneg _ H0)). lra.
  - rewrite (round64_zero q C). apply Qle_refl.
  - exfalso. apply (Qlt_irrefl q). eapply Qle_lt_trans; eassumption.
Qed.

(** Rounding keeps the order. *)
Theorem round64_mono q q' : q <= q' -> as_Q (round64 q) <= as_Q (round64 q').
Proof.
  intros H. destruct (sign_cases q) as [C|[C|C]].
  - destruct (Qlt_le_dec q' 0) as [C'|C'].
    + rewrite (round64_neg q C), (round64_neg q' C'), !as_Q_overflow_neg.
      apply Qopp_le_compat, overflow_mono, nearest_mono; lra.
    + apply Qle_trans with 0; [apply round64_nonpos; lra | apply round64_nonneg, C'].
  - apply Qle_trans with 0; [apply round64_nonpos; lra | apply round64_nonneg; lra].
  - assert (C' : 0 < q') by lra.
    rewrite (round64_pos q C), (round64_pos q' C').
    apply overflow_mono, nearest_mono; assumption.
Qed.

Lemma round64_range q : - pow2 1024 <= as_Q (round64 q) <= pow2 1024.
Proof.
  pose proof (pow2_pos 1024) as Hp.
  destruct (sign_cases q) as [C|[C|C]].
  - rewrite (round64_neg q C), as_Q_overflow_neg.
    assert (H : 0 <= - q) by lra.
    pose proof (overflow_bounds _ (nearest_nonneg _ H)). lra.
  - rewrite (round64_zero q C). cbn [as_Q]. lra.
  - rewrite (round64_pos q C).
    assert (H : 0 <= q) by lra.
    pose proof (overflow_bounds _ (nearest_nonneg _ H)). lra.
Qed.

(** A finite result is below [2^1024] in magnitude; [round64] never gives
    [NaN]. *)
Lemma overflow_finite negative v w :
  0 <= v -> overflow negative v = Finite w -> - pow2 1024 < w < pow2 1024.
Proof.
  intros Hv. unfold overflow. pose proof (pow2_pos 1024) as Hp.
  destruct (Qle_bool (pow2 1024) v) eqn:Ev; [discriminate |].
  assert (v < pow2 1024)
    by (apply Qnot_le_lt; intro C; apply Qle_bool_iff in C; congruence).
  intros [= <-]. destruct negative; split; lra.
Qed.

Lemma round64_finite q w : round64 q = Finite w -> - pow2 1024 < w < pow2 1024.
Proof.
  pose proof (pow2_pos 1024) as Hp.
  destruct (sign_cases q) as [C|[C|C]].
  - rewrite (round64_neg q C). apply overflow_finite, nearest_nonneg. lra.
  - rewrite (round64_zero q C). intros [= <-]. split; lra.
  - rewrite (round64_pos q C). apply overflow_finite, nearest_nonneg. lra.
Qed.

Lemma round64_not_NaN q : round64 q <> NaN.
Proof.
  unfold round64, overflow.
  destruct (Qnum q); try discriminate;
    match goal with |- context [Qle_bool ?a ?b] => destruct (Qle_bool a b) end;
    discriminate.
Qed.

(** Integers below [2^53] are doubles *)
Lemma nearest_grid q k : q == inject_Z k * ulp q -> nearest q == q.
Proof.
  intros E. apply Qle_antisym.
  - rewrite E at 2. apply nearest_le_grid. rewrite <- E. apply Qle_refl.
  - rewrite E at 1. apply nearest_ge_grid. rewrite <- E. apply Qle_refl.
Qed.

Lemma nearest_integer q z :
  q == inject_Z z -> (0 < z < 2 ^ 53)%Z -> nearest q == q.
Proof.
  intros E Hz.
  assert (Hq : 0 < q) by (rewrite E; change 0 with (inject_Z 0); rewrite <- Zlt_Qlt; lia).
  destruct (binade_spec q Hq) as [Hlo Hhi].
  assert (Hb : (0 <= binade q <= 52)%Z).
  { split.
    - assert (pow2 0 < pow2 (binade q + 1)).
      { eapply Qle_lt_trans; [| exact Hhi]. rewrite E.
        change (pow2 0) with (inject_Z 1). rewrite <- Zle_Qle. lia. }
      apply pow2_lt_inv in H. lia.
    - assert (pow2 (binade q) < pow2 53).
      { eapply Qle_lt_trans; [exact Hlo |]. rewrite E, (pow2_Z 53) by lia.
        rewrite <- Zlt_Qlt. lia. }
      apply pow2_lt_inv in H. lia. }
  apply (nearest_grid q (z * 2 ^ (- exponent q))).
  transitivity (inject_Z z); [exact E |].
  rewrite inject_Z_mult, <- pow2_Z, ulp_eq, <- Qmult_assoc, <- pow2_add
    by (unfold exponent; lia).
  replace (- exponent q + exponent q)%Z with 0%Z by ring.
  change (pow2 0) with 1. ring.
Qed.

Lemma Qred_inject_Z q z : q == inject_Z z -> Qred q = inject_Z z.
Proof.
  intros E. rewrite (Qred_complete _ _ E). unfold Qred, inject_Z.
  pose proof (Z.ggcd_gcd z 1) as Hg.
  pose proof (Z.ggcd_correct_divisors z 1) as Hd.
  destruct (Z.ggcd z 1) as [g [aa bb]]. cbn [fst snd] in *.
  rewrite Z.gcd_1_r in Hg. subst g. destruct Hd as [Ha Hb].
  rewrite Z.mul_1_l in Ha, Hb. subst aa bb. reflexivity.
Qed.

Lemma nearest_integer_eq q z :
  q == inject_Z z -> (0 < z < 2 ^ 53)%Z -> nearest q = inject_Z z.
Proof.
  intros E Hz. pose proof (nearest_integer q z E Hz) as H.
  rewrite nearest_eq in H. unfold nearest. apply Qred_inject_Z.
  transitivity q; assumption.
Qed.

Lemma below_overflow z : (0 < z < 2 ^ 53)%Z -> Qle_bool (pow2 1024) (inject_Z z) = false.
Proof.
  intros Hz. destruct (Qle_bool (pow2 1024) (inject_Z z)) eqn:E; trivial.
  apply Qle_bool_iff in E. rewrite pow2_Z in E by lia.
  rewrite <- Zle_Qle in E.
  assert (2 ^ 53 < 2 ^ 1024)%Z by (apply Z.pow_lt_mono_r; lia). lia.
Qed.

Theorem round64_integer q z :
  q == inject_Z z -> (Z.abs z < 2 ^ 53)%Z -> round64 q = Finite (inject_Z z).
Proof.
  intros E Hz.
  destruct (Z.lt_trichotomy z 0) as [C|[C|C]].
  - assert (Hq : q < 0) by (rewrite E; change 0 with (inject_Z 0); rewrite <- Zlt_Qlt; lia).
    assert (E' : - q == inject_Z (- z)) by (rewrite inject_Z_opp, E; reflexivity).
    rewrite (round64_neg q Hq), (nearest_integer_eq _ _ E') by lia.
    unfold overflow. rewrite below_overflow by lia.
    unfold inject_Z, Qopp. cbn [Qnum Qden]. rewrite Z.opp_involutive. reflexivity.
  - subst z. apply round64_zero, E.
  - assert (Hq : 0 < q) by (rewrite E; change 0 with (inject_Z 0); rewrite <- Zlt_Qlt; lia).
    rewrite (round64_pos q Hq), (nearest_integer_eq _ _ E) by lia.
    unfold overflow. rewrite below_overflow by lia. reflexivity.
Qed.

(** In the normal range the result is within half an ulp, which is at most
    [2^-53] of the magnitude. *)
Lemma nearest_relative q :
  pow2 (-1022) <= q -> q < pow2 1023 ->
  Qabs (nearest q - q) <= q * pow2 (-53) /\ nearest q < pow2 1024.
Proof.
  intros Hlo Hhi.
  assert (Hq : 0 < q) by (eapply Qlt_le_trans; [apply (pow2_pos (-1022)) | exact Hlo]).
  destruct (binade_spec q Hq) as [Hb1 Hb2].
  assert (Hb : (-1022 <= binade q < 1023)%Z).
  { split.
    - assert (H : pow2 (-1022) < pow2 (binade q + 1))
        by (eapply Qle_lt_trans; eassumption).
      apply pow2_lt_inv in H. lia.
    - assert (H : pow2 (binade q) < pow2 1023)
        by (eapply Qle_lt_trans; eassumption).
      apply pow2_lt_inv in H. exact H. }
  assert (He : exponent q = (binade q - 52)%Z) by (unfold exponent; lia).
  split.
  - eapply Qle_trans; [apply nearest_close |].
    rewrite ulp_eq, He.
    replace (binade q - 52)%Z with (binade q + -52)%Z by ring.
    rewrite pow2_add.
    assert (E : pow2 (-53) == (1 # 2) * pow2 (-52)).
    { replace (-53)%Z with (-1 + -52)%Z by ring. rewrite pow2_add. reflexivity. }
    rewrite E.
    pose proof (pow2_pos (-52)) as Hp.
    generalize dependent (pow2 (-52)). generalize dependent (pow2 (binade q)).
    intros. nra.
  - apply Qle_lt_trans with (pow2 1023); [| apply pow2_lt; lia].
    apply nearest_le_pow2; [lia | apply Qlt_le_weak, Hhi].
Qed.

Lemma overflow_below negative v :
  v < pow2 1024 -> overflow negative v = Finite (if negative then - v else v).
Proof.
  intros H. unfold overflow.
  destruct (Qle_bool (pow2 1024) v) eqn:E; [| reflexivity].
  apply Qle_bool_iff in E. exfalso. apply (Qlt_irrefl v).
  eapply Qlt_le_trans; eassumption.
Qed.

Theorem round64_close q :
  pow2 (-1022) <= Qabs q -> Qabs q < pow2 1023 ->
  Qabs (as_Q (round64 q) - q) <= Qabs q * pow2 (-53).
Proof.
  intros Hlo Hhi. pose proof (pow2_pos (-1022)) as Hp.
  destruct (sign_cases q) as [C|[C|C]].
  - rewrite (Qabs_neg q) in * by lra.
    destruct (nearest_relative (- q) Hlo Hhi) as [Hclose Hfin].
    rewrite (round64_neg q C), (overflow_below true _ Hfin). cbn [as_Q].
    assert (E : - nearest (- q) - q == - (nearest (- q) - - q)) by ring.
    rewrite E, Qabs_opp. exact Hclose.
  - exfalso. rewrite C in Hlo. cbn in Hlo. lra.
  - rewrite (Qabs_pos q) in * by lra.
    destruct (nearest_relative q Hlo Hhi) as [Hclose Hfin].
    rewrite (round64_pos q C), (overflow_below false _ Hfin). exact Hclose.
Qed.

(** Up to [2^1023] nothing overflows. *)
Lemma nearest_below q : 0 < q -> q <= pow2 1023 -> nearest q < pow2 1024.
Proof.
  intros Hq Hle.
  destruct (binade_spec q Hq) as [Hlo _].
  assert (Hb : (binade q <= 1023)%Z).
  { destruct (Z.le_gt_cases (binade q) 1023) as [|Hgt]; [assumption|].
    exfalso. apply (Qlt_irrefl q).
    eapply Qle_lt_trans; [exact Hle|].
    eapply Qlt_le_trans; [|exact Hlo]. apply pow2_lt. lia. }
  apply Qle_lt_trans with (pow2 1023); [|apply pow2_lt; lia].
  apply nearest_le_pow2; [unfold exponent; lia|exact Hle].
Qed.

Lemma round64_below q :
  Qabs q <= pow2 1023 -> exists v, round64 q = Finite v.
Proof.
  intros Hle. destruct (sign_cases q) as [C|[C|C]].
  - rewrite (Qabs_neg q) in Hle by lra.
    rewrite (round64_neg q C), (overflow_below true)
      by (apply nearest_below; [lra|exact Hle]).
    eauto.
  - rewrite (round64_zero q C). eauto.
  - rewrite (Qabs_pos q) in Hle by lra.
    rewrite (round64_pos q C), (overflow_below false)
      by (apply nearest_below; assumption).
    eauto.
Qed.

End Binary64.

(** ** [slice(-n)] *)

Lemma slice_last_suffix {A : Type} (n : nat) (xs : list A) :
  exists older, xs = older ++ Js.slice_last n xs.
Proof.
  destruct n as [|n]; [exists []; reflexivity|].
  exists (firstn (List.length xs - S n) xs).
  unfold Js.slice_last. symmetry. apply firstn_skipn.
Qed.

Lemma slice_last_length {A : Type} (n : nat) (xs : list A) :
  n <> O -> List.length (Js.slice_last n xs) = Nat.min (List.length xs) n.
Proof.
  intros Hn. destruct n as [|n]; [contradiction|].
  unfold Js.slice_last. rewrite length_skipn. lia.
Qed.

Lemma slice_last_short {A : Type} (n : nat) (xs : list A) :
  (List.length xs <= n)%nat -> Js.slice_last n xs = xs.
Proof.
  intros Hle. destruct n as [|n]; [reflexivity|].
  unfold Js.slice_last.
  replace (List.length xs - S n)%nat with O by lia. reflexivity.
Qed.

Lemma slice_last_In {A : Type} (n : nat) (xs : list A) (x : A) :
  In x (Js.slice_last n xs) -> In x xs.
Proof.
  intros Hin. destruct (slice_last_suffix n xs) as [older Heq].
  rewrite Heq. apply in_or_app. now right.
Qed.

(** ** The anomaly detector *)

Lemma history_of_length (name : string) (log : list ProbeResult) :
  List.length (history_of name log)
  = Nat.min (List.length (filter (qualifies name) log)) ANOMALY_WINDOW.
Proof. unfold history_of. apply slice_last_length. discriminate. Qed.

Lemma history_of_enough (name : string) (log : list ProbeResult) :
  (ANOMALY_MIN_SAMPLES <= List.length (history_of name log))%nat
  <-> (ANOMALY_MIN_SAMPLES <= List.length (filter (qualifies name) log))%nat.
Proof.
  rewrite history_of_length. unfold ANOMALY_MIN_SAMPLES, ANOMALY_WINDOW. lia.
Qed.

(** [detectAnomaly] scores exactly when control reaches the division. *)
Lemma detectAnomaly_scored (name : string) (currentMs : option Z)
    (log : list ProbeResult) :
  detectAnomaly name currentMs log
  = match scoring_divisor name currentMs log, currentMs with
    | Some avg, Some c => verdict_for avg (deviation c avg)
    | _, _ => not_detected
    end.
Proof.
  unfold detectAnomaly, scoring_divisor, verdict_for.
  destruct currentMs as [c|]; [|reflexivity].
  cbv zeta.
  destruct (List.length (history_of name log) <? ANOMALY_MIN_SAMPLES)%nat;
    [reflexivity|].
  destruct (rolling_average (history_of name log) =? 0); reflexivity.
Qed.

Lemma scoring_divisor_Some (name : string) (c : Z) (log : list ProbeResult) :
  (ANOMALY_MIN_SAMPLES <= List.length (history_of name log))%nat ->
  rolling_average (history_of name log) <> 0 ->
  scoring_divisor name (Some c) log
  = Some (rolling_average (history_of name log)).
Proof.
  intros Hlen Havg. unfold scoring_divisor. cbv zeta.
  destruct (Nat.ltb_spec (List.length (history_of name log))
                         ANOMALY_MIN_SAMPLES) as [Hlt|_]; [lia|].
  destruct (Z.eqb_spec (rolling_average (history_of name log)) 0);
    [contradiction|reflexivity].
Qed.

Lemma scoring_divisor_nonzero (name : string) (currentMs : option Z)
    (log : list ProbeResult) (d : Z) :
  scoring_divisor name currentMs log = Some d ->
  d = rolling_average (history_of name log) /\ d <> 0.
Proof.
  unfold scoring_divisor. destruct currentMs; [|discriminate].
  cbv zeta.
  destruct (List.length (history_of name log) <? ANOMALY_MIN_SAMPLES)%nat;
    [discriminate|].
  destruct (Z.eqb_spec (rolling_average (history_of name log)) 0);
    [discriminate|].
  intros [= <-]. split; [reflexivity|assumption].
Qed.

Lemma verdict_for_bands (avg : Z) (factor : Js.Fixed2) :
  ((Js.parseFloat factor < 2)%Q -> verdict_for avg factor = not_detected)
  /\ ((2 <= Js.parseFloat factor < 3)%Q ->
      verdict_for avg factor
      = {| detected := true; rollingAvgMs := Some avg;
           deviationFactor := Some factor; severity := Some warning |})
  /\ ((3 <= Js.parseFloat factor)%Q ->
      verdict_for avg factor
      = {| detected := true; rollingAvgMs := Some avg;
           deviationFactor := Some factor; severity := Some critical |}).
Proof.
  unfold verdict_for, ANOMALY_CRITICAL_FACTOR, ANOMALY_WARNING_FACTOR.
  change (inject_Z 3) with 3%Q. change (inject_Z 2) with 2%Q.
  destruct (Qle_bool 3 (Js.parseFloat factor)) eqn:H3;
    destruct (Qle_bool 2 (Js.parseFloat factor)) eqn:H2;
    try (apply Qle_bool_iff in H3); try (apply Qle_bool_iff in H2);
    repeat split; intros; try reflexivity; exfalso;
    try (assert (~ (3 <= Js.parseFloat factor)%Q) as N3
           by (rewrite <- Qle_bool_iff; congruence));
    try (assert (~ (2 <= Js.parseFloat factor)%Q) as N2
           by (rewrite <- Qle_bool_iff; congruence));
    lra.
Qed.

(** The verdict never gets milder as the factor grows. *)
Lemma verdict_for_monotone (avg avg' : Z) (factor factor' : Js.Fixed2) :
  (Js.parseFloat factor <= Js.parseFloat factor')%Q ->
  (severity_rank (verdict_for avg factor)
   <= severity_rank (verdict_for avg' factor'))%nat.
Proof.
  intros Hle. unfold verdict_for, ANOMALY_CRITICAL_FACTOR, ANOMALY_WARNING_FACTOR.
  change (inject_Z 3) with 3%Q. change (inject_Z 2) with 2%Q.
  destruct (Qle_bool 3 (Js.parseFloat factor)) eqn:H3;
    destruct (Qle_bool 2 (Js.parseFloat factor)) eqn:H2;
    destruct (Qle_bool 3 (Js.parseFloat factor')) eqn:H3';
    destruct (Qle_bool 2 (Js.parseFloat factor')) eqn:H2';
    cbn; try lia; exfalso;
    repeat match goal with
    | H : Qle_bool _ _ = true |- _ => apply Qle_bool_iff in H
    | H : Qle_bool ?a ?b = false |- _ =>
      assert (~ (a <= b)%Q) by (rewrite <- Qle_bool_iff; congruence); clear H
    end; lra.
Qed.

(** *** The numbers of the detector *)

Lemma of_Z_exact (z : Z) :
  Z.abs z < 2 ^ 53 -> Js.of_Z z = Js.Finite (inject_Z z).
Proof. intros Hz. apply Binary64.round64_integer; [reflexivity|exact Hz]. Qed.

Lemma of_Z_mono (z z' : Z) :
  z <= z' -> (Js.as_Q (Js.of_Z z) <= Js.as_Q (Js.of_Z z'))%Q.
Proof.
  intros Hle. apply Binary64.round64_mono. now rewrite <- Zle_Qle.
Qed.

Lemma infinity_negative : (- Js.pow2 1024 < 0)%Q.
Proof. pose proof (Binary64.pow2_pos 1024). lra. Qed.

(** A number that is positive: a positive double or [+Infinity]. *)
Lemma of_Z_positive (z : Z) :
  0 < z ->
  (exists b, Js.of_Z z = Js.Finite b /\ (0 < b)%Q)
  \/ Js.of_Z z = Js.Infinite false.
Proof.
  intros Hz. pose proof (of_Z_mono 1 z ltac:(lia)) as Hle.
  rewrite (of_Z_exact 1) in Hle by (cbn; lia). cbn [Js.as_Q] in Hle.
  pose proof infinity_negative as Hinf.
  destruct (Js.of_Z z) as [b|[|]|] eqn:E; cbn [Js.as_Q] in Hle.
  - left. exists b. split; [reflexivity|]. change (inject_Z 1) with 1%Q in Hle. lra.
  - exfalso. change (inject_Z 1) with 1%Q in Hle. lra.
  - now right.
  - exfalso. exact (Binary64.round64_not_NaN _ E).
Qed.

Lemma of_Z_nonneg (z : Z) :
  0 <= z -> Js.of_Z z <> Js.NaN /\ (0 <= Js.as_Q (Js.of_Z z))%Q.
Proof.
  intros Hz. split; [apply Binary64.round64_not_NaN|].
  apply Binary64.round64_nonneg. change 0%Q with (inject_Z 0).
  now rewrite <- Zle_Qle.
Qed.

Lemma add_nonneg (x y : Js.number) :
  x <> Js.NaN /\ (0 <= Js.as_Q x)%Q ->
  y <> Js.NaN /\ (0 <= Js.as_Q y)%Q ->
  Js.add x y <> Js.NaN /\ (0 <= Js.as_Q (Js.add x y))%Q.
Proof.
  pose proof infinity_negative as Hinf.
  pose proof (Binary64.pow2_pos 1024) as Hp.
  intros [Hx Hx0] [Hy Hy0].
  destruct x as [a|[|]|], y as [b|[|]|]; cbn [Js.as_Q Js.add Bool.eqb] in *;
    try contradiction; try (exfalso; lra);
    try (split; [discriminate|lra]).
  split; [apply Binary64.round64_not_NaN|].
  apply Binary64.round64_nonneg. lra.
Qed.

Lemma fold_add_time_nonneg (history : list ProbeResult) (acc : Js.number) :
  (forall r t, In r history -> responseTimeMs r = Some t -> 0 <= t) ->
  acc <> Js.NaN /\ (0 <= Js.as_Q acc)%Q ->
  fold_left add_time history acc <> Js.NaN
  /\ (0 <= Js.as_Q (fold_left add_time history acc))%Q.
Proof.
  revert acc. induction history as [|r history IH]; intros acc Hall Hacc.
  - exact Hacc.
  - cbn [fold_left]. apply IH.
    + intros r' t Hin. apply Hall. now right.
    + unfold add_time. apply add_nonneg; [exact Hacc|].
      apply of_Z_nonneg.
      destruct (responseTimeMs r) as [t|] eqn:Ht; [|lia].
      exact (Hall r t (or_introl eq_refl) Ht).
Qed.

Lemma positive_not_zero (b : Q) : (0 < b)%Q -> Qeq_bool b 0 = false.
Proof.
  intros Hb. destruct (Qeq_bool b 0) eqn:E; [|reflexivity].
  apply Qeq_bool_iff in E. lra.
Qed.

Lemma positive_num (b : Q) :
  (0 < b)%Q -> match Qnum b with Zneg _ => true | _ => false end = false.
Proof.
  destruct b as [[|n|n] d]; unfold Qlt; cbn; intros; try reflexivity; lia.
Qed.

Lemma divide_nonneg (x y : Js.number) :
  x <> Js.NaN /\ (0 <= Js.as_Q x)%Q ->
  (exists b, y = Js.Finite b /\ (0 < b)%Q) \/ y = Js.Infinite false ->
  (0 <= Js.as_Q (Js.divide x y))%Q.
Proof.
  pose proof infinity_negative as Hinf.
  pose proof (Binary64.pow2_pos 1024) as Hp.
  intros [Hx Hx0] [(b & -> & Hb)| ->];
    destruct x as [a|[|]|]; cbn [Js.as_Q Js.divide] in *;
    try contradiction; try (exfalso; lra); try lra.
  - rewrite (positive_not_zero b Hb). apply Binary64.round64_nonneg.
    apply Qle_shift_div_l; [exact Hb|lra].
  - rewrite (positive_num b Hb). cbn. lra.
Qed.

Lemma Math_round_mono (x y : Q) :
  (x <= y)%Q -> Js.Math_round x <= Js.Math_round y.
Proof. intros Hle. unfold Js.Math_round. apply Qfloor_resp_le. lra. Qed.

Lemma Math_round_Z (z : Z) : Js.Math_round (inject_Z z) = z.
Proof.
  unfold Js.Math_round.
  assert (Hlo : (inject_Z z <= inject_Z z + (1 # 2))%Q) by lra.
  assert (Hhi : (inject_Z z + (1 # 2) <= inject_Z z + (1 # 2))%Q) by lra.
  apply Qfloor_resp_le in Hlo. rewrite Qfloor_Z in Hlo.
  pose proof (Qfloor_le (inject_Z z + (1 # 2))) as Hle.
  assert (Hlt : (inject_Z (Qfloor (inject_Z z + (1 # 2))) < inject_Z (z + 1))%Q).
  { rewrite inject_Z_plus. change (inject_Z 1) with 1%Q.
    generalize dependent (inject_Z (Qfloor (inject_Z z + (1 # 2)))).
    intros; lra. }
  rewrite <- Zlt_Qlt in Hlt. lia.
Qed.

Lemma rolling_average_nonneg (history : list ProbeResult) :
  (forall r t, In r history -> responseTimeMs r = Some t -> 0 <= t) ->
  0 <= rolling_average history.
Proof.
  intros Hall. unfold rolling_average. apply Math_round_nonneg.
  destruct history as [|r history]; [cbn; lra|].
  unfold mean. apply divide_nonneg.
  - apply fold_add_time_nonneg; [exact Hall|]. apply of_Z_nonneg. lia.
  - apply of_Z_positive. cbn [List.length]. lia.
Qed.

Lemma of_Z_finite (z : Z) :
  Z.abs z <= 2 ^ 1023 -> exists v, Js.of_Z z = Js.Finite v.
Proof.
  intros Hz. apply Binary64.round64_below.
  change (Qabs (inject_Z z)) with (inject_Z (Z.abs z)).
  rewrite Binary64.pow2_Z by discriminate. now rewrite <- Zle_Qle.
Qed.

(** The sum of doubles that hold integers is never [NaN], nor is their
    mean. *)
Lemma fold_add_time_not_NaN (history : list ProbeResult) (acc : Js.number) :
  (forall r t, In r history -> responseTimeMs r = Some t ->
     Z.abs t <= 2 ^ 1023) ->
  acc <> Js.NaN -> fold_left add_time history acc <> Js.NaN.
Proof.
  revert acc. induction history as [|r history IH]; intros acc Hall Hacc.
  - exact Hacc.
  - cbn [fold_left]. apply IH; [intros r' t Hin; apply Hall; now right|].
    unfold add_time.
    destruct (of_Z_finite
                match responseTimeMs r with Some t => t | None => 0 end)
      as [v ->].
    { destruct (responseTimeMs r) as [t|] eqn:Ht;
        [exact (Hall r t (or_introl eq_refl) Ht)|discriminate]. }
    destruct acc as [a|s|]; cbn [Js.add];
      [apply Binary64.round64_not_NaN|discriminate|contradiction].
Qed.

Lemma mean_not_NaN (history : list ProbeResult) :
  history <> [] -> (List.length history <= ANOMALY_WINDOW)%nat ->
  (forall r t, In r history -> responseTimeMs r = Some t ->
     Z.abs t <= 2 ^ 1023) ->
  mean history <> Js.NaN.
Proof.
  intros Hne Hlen Hall. unfold mean.
  pose proof (fold_add_time_not_NaN history (Js.of_Z 0) Hall
                (Binary64.round64_not_NaN _)) as Hsum.
  assert (Hn : 0 < Z.of_nat (List.length history) <= 10)
    by (destruct history; [contradiction|];
        unfold ANOMALY_WINDOW in Hlen; cbn [List.length] in *; lia).
  rewrite (of_Z_exact (Z.of_nat (List.length history)))
    by (change (2 ^ 53) with 9007199254740992; lia).
  assert (Hnz : Qeq_bool (inject_Z (Z.of_nat (List.length history))) 0 = false)
    by (apply positive_not_zero; change 0%Q with (inject_Z 0);
        rewrite <- Zlt_Qlt; lia).
  destruct (fold_left add_time history (Js.of_Z 0)) as [a|s|];
    cbn [Js.divide]; [|discriminate|contradiction].
  rewrite Hnz. apply Binary64.round64_not_NaN.
Qed.

(** A quotient by a positive number grows with its numerator. *)
Lemma divide_mono (q q' : Q) (y : Js.number) :
  (q <= q')%Q ->
  (exists b, y = Js.Finite b /\ (0 < b)%Q) \/ y = Js.Infinite false ->
  (Js.as_Q (Js.divide (Js.round64 q) y)
   <= Js.as_Q (Js.divide (Js.round64 q') y))%Q.
Proof.
  intros Hle Hy.
  pose proof (Binary64.round64_mono q q' Hle) as Hmono.
  pose proof (Binary64.round64_finite q) as Hfin.
  pose proof (Binary64.round64_finite q') as Hfin'.
  pose proof (Binary64.round64_not_NaN q) as Hnan.
  pose proof (Binary64.round64_not_NaN q') as Hnan'.
  pose proof (Binary64.pow2_pos 1024) as Hp.
  destruct Hy as [(b & -> & Hb)| ->].
  - destruct (Js.round64 q) as [a|[|]|], (Js.round64 q') as [a'|[|]|];
      try contradiction; cbn [Js.as_Q Js.divide] in *;
      rewrite ?(positive_not_zero b Hb), ?(positive_num b Hb);
      cbn [xorb Js.as_Q];
      try (specialize (Hfin _ eq_refl)); try (specialize (Hfin' _ eq_refl));
      try lra.
    + apply Binary64.round64_mono.
      apply Qmult_le_compat_r; [exact Hmono|].
      apply Qlt_le_weak, Qinv_lt_0_compat, Hb.
    + apply (Binary64.round64_range (a / b)).
    + apply (Binary64.round64_range (a' / b)).
  - destruct (Js.round64 q) as [a|[|]|], (Js.round64 q') as [a'|[|]|];
      cbn [Js.as_Q Js.divide]; lra.
Qed.

Lemma ratio_mono (c c' avg : Z) :
  0 < avg -> c <= c' ->
  (Js.as_Q (ratio c avg) <= Js.as_Q (ratio c' avg))%Q.
Proof.
  intros Havg Hle. unfold ratio, Js.of_Z at 1 3.
  apply divide_mono; [now rewrite <- Zle_Qle|apply of_Z_positive, Havg].
Qed.

Lemma toFixed2_mono (x y : Q) :
  (x <= y)%Q ->
  Js.hundredths (Js.toFixed2 x) <= Js.hundredths (Js.toFixed2 y).
Proof.
  intros Hle. unfold Js.toFixed2; cbn [Js.hundredths].
  destruct (Qle_bool 0 x) eqn:Hx; destruct (Qle_bool 0 y) eqn:Hy;
    try (apply Qle_bool_iff in Hx); try (apply Qle_bool_iff in Hy).
  - apply Qfloor_resp_le. lra.
  - exfalso. assert (~ (0 <= y)%Q) by (rewrite <- Qle_bool_iff; congruence). lra.
  - assert (Nx : ~ (0 <= x)%Q) by (rewrite <- Qle_bool_iff; congruence).
    assert (0 <= Qfloor (100 * - x + (1 # 2)))
      by (change 0 with (Qfloor 0); apply Qfloor_resp_le; lra).
    assert (0 <= Qfloor (100 * y + (1 # 2)))
      by (change 0 with (Qfloor 0); apply Qfloor_resp_le; lra).
    lia.
  - assert (Qfloor (100 * - y + (1 # 2)) <= Qfloor (100 * - x + (1 # 2)))
      by (apply Qfloor_resp_le; lra).
    lia.
Qed.

Lemma parseFloat_mono (d d' : Js.Fixed2) :
  Js.hundredths d <= Js.hundredths d' ->
  (Js.parseFloat d <= Js.parseFloat d')%Q.
Proof. intros Hle. unfold Js.parseFloat, Qle. cbn. lia. Qed.

(** [hundredths (toFixed2 x) >= k] for a positive [k]: [x] is at least
    the half-way point below. *)
Lemma toFixed2_ge (x : Q) (k : Z) :
  0 < k ->
  (k <= Js.hundredths (Js.toFixed2 x) <-> ((2 * k - 1) # 200 <= x)%Q).
Proof.
  intros Hk. unfold Js.toFixed2; cbn [Js.hundredths].
  assert (Ek : ((2 * k - 1) # 200 == (inject_Z k - (1 # 2)) * (1 # 100))%Q).
  { unfold Qeq, Qminus, Qplus, Qmult, Qopp, inject_Z. cbn [Qnum Qden].
    rewrite ?Pos2Z.inj_mul. lia. }
  assert (Hkpos : (1 <= inject_Z k)%Q)
    by (change 1%Q with (inject_Z 1); rewrite <- Zle_Qle; lia).
  destruct (Qle_bool 0 x) eqn:Hx.
  - apply Qle_bool_iff in Hx. rewrite Ek. split.
    + intros Hle. rewrite Zle_Qle in Hle.
      pose proof (Qfloor_le (100 * x + (1 # 2))) as Hf.
      generalize dependent (inject_Z (Qfloor (100 * x + (1 # 2)))).
      generalize dependent (inject_Z k). intros; lra.
    + intros Hle. rewrite <- (Qfloor_Z k). apply Qfloor_resp_le.
      generalize dependent (inject_Z k). intros; lra.
  - assert (Nx : ~ (0 <= x)%Q) by (rewrite <- Qle_bool_iff; congruence).
    assert (0 <= Qfloor (100 * - x + (1 # 2)))
      by (change 0 with (Qfloor 0); apply Qfloor_resp_le; lra).
    rewrite Ek. split; [lia|].
    generalize dependent (inject_Z k). intros; lra.
Qed.

(** On integers below [2^53] in magnitude the quotient is the double
    nearest to the exact quotient, within [2^-53] of it in proportion. *)
Lemma ratio_round64 (c avg : Z) :
  Z.abs c < 2 ^ 53 -> Z.abs avg < 2 ^ 53 -> avg <> 0 ->
  ratio c avg = Js.round64 (Js.div c avg).
Proof.
  intros Hc Havg Hnz. unfold ratio.
  rewrite (of_Z_exact c Hc), (of_Z_exact avg Havg). cbn [Js.divide].
  assert (E : Qeq_bool (inject_Z avg) 0 = false).
  { destruct (Qeq_bool (inject_Z avg) 0) eqn:E; [|reflexivity].
    apply Qeq_bool_iff in E. unfold Qeq in E. cbn in E. lia. }
  rewrite E. reflexivity.
Qed.

Lemma Qabs_div (c avg : Z) :
  (Qabs (Js.div c avg) == inject_Z (Z.abs c) / inject_Z (Z.abs avg))%Q.
Proof. unfold Js.div, Qdiv. rewrite Qabs_Qmult, Qabs_Qinv. reflexivity. Qed.

Lemma ratio_close (c avg : Z) :
  Z.abs c < 2 ^ 53 -> Z.abs avg < 2 ^ 53 -> avg <> 0 ->
  (Qabs (Js.as_Q (ratio c avg) - Js.div c avg)
   <= Qabs (Js.div c avg) * Js.pow2 (-53))%Q.
Proof.
  intros Hc Havg Hnz. rewrite (ratio_round64 c avg Hc Havg Hnz).
  destruct (Z.eq_dec c 0) as [->|Hc0].
  - assert (E : (Js.div 0 avg == 0)%Q) by (unfold Js.div, Qdiv; ring).
    rewrite (Binary64.round64_zero _ E). cbn [Js.as_Q].
    rewrite E. vm_compute. discriminate.
  - assert (Ha : (0 < inject_Z (Z.abs avg))%Q)
      by (change 0%Q with (inject_Z 0); rewrite <- Zlt_Qlt; lia).
    assert (Ha53 : (inject_Z (Z.abs avg) <= Js.pow2 53)%Q)
      by (rewrite Binary64.pow2_Z by lia; rewrite <- Zle_Qle; lia).
    assert (Hc1 : (1 <= inject_Z (Z.abs c))%Q)
      by (change 1%Q with (inject_Z 1); rewrite <- Zle_Qle; lia).
    assert (Hc53 : (inject_Z (Z.abs c) < Js.pow2 53)%Q)
      by (rewrite Binary64.pow2_Z by lia; rewrite <- Zlt_Qlt; lia).
    assert (Ha1 : (1 <= inject_Z (Z.abs avg))%Q)
      by (change 1%Q with (inject_Z 1); rewrite <- Zle_Qle; lia).
    apply Binary64.round64_close; rewrite Qabs_div.
    + apply Qle_trans with (Js.pow2 (-53)); [apply Binary64.pow2_le; lia|].
      apply Qle_shift_div_l; [exact Ha|].
      apply Qle_trans with (Js.pow2 (-53) * Js.pow2 53)%Q.
      * apply Qmult_le_l; [apply Binary64.pow2_pos|exact Ha53].
      * rewrite <- Binary64.pow2_add. cbn. exact Hc1.
    + apply Qlt_le_trans with (Js.pow2 53); [|apply Binary64.pow2_le; lia].
      apply Qlt_shift_div_r; [exact Ha|].
      pose proof (Binary64.pow2_pos 53).
      generalize dependent (Js.pow2 53). generalize dependent (inject_Z (Z.abs c)).
      generalize dependent (inject_Z (Z.abs avg)). intros; nra.
Qed.
(** C4: with a qualifying baseline (a current response time, at least five
    qualifying samples, a rolling average other than zero) the deviation
    factor is the quotient [currentMs / rollingAvgMs] rounded to two
    decimals, and it alone decides the verdict: below 2 nothing is
    detected, from 2 up to but excluding 3 the severity is [warning], from
    3 on it is [critical].  The quotient is the one the script computes, a
    double: on integers below [2^53] in magnitude the double nearest to the
    exact quotient, which it meets to within [2^-53] in proportion. *)
Theorem detectAnomaly_bands (name : string) (currentMs : Z)
    (log : list ProbeResult) :
  let avg := rolling_average (history_of name log) in
  let quotient := ratio currentMs avg in
  let factor := deviation currentMs avg in
  (ANOMALY_MIN_SAMPLES <= List.length (filter (qualifies name) log))%nat ->
  avg <> 0 ->
  (Qabs (Js.parseFloat factor - Js.as_Q quotient) <= 1 # 200)%Q
  /\ (Z.abs currentMs < 2 ^ 53 -> Z.abs avg < 2 ^ 53 ->
      quotient = Js.round64 (Js.div currentMs avg)
      /\ (Qabs (Js.as_Q quotient - Js.div currentMs avg)
          <= Qabs (Js.div currentMs avg) * Js.pow2 (-53))%Q)
  /\ ((Js.parseFloat factor < 2)%Q ->
      detectAnomaly name (Some currentMs) log = not_detected)
  /\ ((2 <= Js.parseFloat factor < 3)%Q ->
      detectAnomaly name (Some currentMs) log
      = {| detected := true; rollingAvgMs := Some avg;
           deviationFactor := Some factor; severity := Some warning |})
  /\ ((3 <= Js.parseFloat factor)%Q ->
      detectAnomaly name (Some currentMs) log
      = {| detected := true; rollingAvgMs := Some avg;
           deviationFactor := Some factor; severity := Some critical |}).
Proof.
  intros avg quotient factor Hlen Havg. apply history_of_enough in Hlen.
  split; [apply toFixed2_close|].
  split.
  - intros Hc Ha. split; [now apply ratio_round64|now apply ratio_close].
  - rewrite detectAnomaly_scored,
      (scoring_divisor_Some name currentMs log Hlen Havg).
    apply verdict_for_bands.
Qed.

(** Scenario B of the specification: nine samples of 100 ms, then 350 ms;
    and 401 ms against five samples of 200 ms, where the double nearest to
    2.005 lies below it. *)
Lemma detectAnomaly_bands_witness :
  (ANOMALY_MIN_SAMPLES
   <= List.length (filter (qualifies "A")
                     (repeat (entry_of "A" (Some 100%Z)) 9)))%nat
  /\ rolling_average (history_of "A" (repeat (entry_of "A" (Some 100)) 9)) <> 0
  /\ detectAnomaly "A" (Some 350) (repeat (entry_of "A" (Some 100)) 9)
     = {| detected := true; rollingAvgMs := Some 100;
          deviationFactor := Some {| Js.hundredths := 350 |};
          severity := Some critical |}
  /\ detectAnomaly "A" (Some 401) (repeat (entry_of "A" (Some 200)) 5)
     = {| detected := true; rollingAvgMs := Some 200;
          deviationFactor := Some {| Js.hundredths := 200 |};
          severity := Some warning |}.
Proof.
  assert (H5 : (ANOMALY_MIN_SAMPLES
                <= List.length (filter (qualifies "A")
                                  (repeat (entry_of "A" (Some 100%Z)) 9)))%nat)
    by (vm_compute; lia).
  assert (H0 : rolling_average
                 (history_of "A" (repeat (entry_of "A" (Some 100)) 9)) <> 0)
    by (vm_compute; discriminate).
  split; [exact H5|split; [exact H0|split]].
  - destruct (detectAnomaly_bands "A" 350 _ H5 H0) as (_ & _ & _ & _ & Hcrit).
    apply Hcrit. vm_compute. discriminate.
  - assert (H5' : (ANOMALY_MIN_SAMPLES
                   <= List.length (filter (qualifies "A")
                                     (repeat (entry_of "A" (Some 200%Z)) 5)))%nat)
      by (vm_compute; lia).
    assert (H0' : rolling_average
                    (history_of "A" (repeat (entry_of "A" (Some 200)) 5)) <> 0)
      by (vm_compute; discriminate).
    destruct (detectAnomaly_bands "A" 401 _ H5' H0') as (_ & _ & _ & Hwarn & _).
    apply Hwarn. vm_compute. split; [discriminate|reflexivity].
Defined.

Lemma qualifies_spec (name : string) (r : ProbeResult) :
  qualifies name r = true <-> endpoint r = name /\ responseTimeMs r <> None.
Proof.
  unfold qualifies. rewrite andb_true_iff, String.eqb_eq.
  destruct (responseTimeMs r); simpl; intuition congruence.
Qed.

Lemma filter_qualifies_timed (name : string) (log : list ProbeResult) :
  filter (qualifies name)
         (filter (fun r => negb (is_null (responseTimeMs r))) log)
  = filter (qualifies name) log.
Proof.
  induction log as [|r log IH]; [reflexivity|].
  cbn [filter]. destruct (responseTimeMs r) eqn:Ht; cbn [is_null negb].
  - cbn [filter]. rewrite IH. reflexivity.
  - assert (Hq : qualifies name r = false)
      by (unfold qualifies; rewrite Ht; apply andb_false_r).
    rewrite Hq. exact IH.
Qed.

(** [detectAnomaly] looks at the log through [history_of] only. *)
Lemma detectAnomaly_history (name : string) (currentMs : option Z)
    (log log' : list ProbeResult) :
  history_of name log = history_of name log' ->
  detectAnomaly name currentMs log = detectAnomaly name currentMs log'.
Proof.
  intros Heq. unfold detectAnomaly. rewrite Heq. reflexivity.
Qed.

(** C5: nothing is detected when the current response time is null, nor
    when the log holds fewer than five entries of the endpoint with a
    response time; the baseline window is the last ten qualifying entries,
    none of which has a null response time, and entries with a null response
    time have no influence on the verdict. *)
Theorem detectAnomaly_baseline (name : string) (currentMs : option Z)
    (log : list ProbeResult) :
  (currentMs = None
   \/ (List.length (filter (qualifies name) log) < ANOMALY_MIN_SAMPLES)%nat ->
   detectAnomaly name currentMs log = not_detected)
  /\ (forall r, In r (history_of name log) ->
        endpoint r = name /\ responseTimeMs r <> None)
  /\ (exists older,
        filter (qualifies name) log = older ++ history_of name log)
  /\ List.length (history_of name log)
     = Nat.min (List.length (filter (qualifies name) log)) ANOMALY_WINDOW
  /\ detectAnomaly name currentMs log
     = detectAnomaly name currentMs
         (filter (fun r => negb (is_null (responseTimeMs r))) log).
Proof.
  split; [|split; [|split; [|split]]].
  - intros [Hnull|Hfew].
    + subst. reflexivity.
    + unfold detectAnomaly. destruct currentMs as [c|]; [|reflexivity].
      cbv zeta.
      destruct (Nat.ltb_spec (List.length (history_of name log))
                             ANOMALY_MIN_SAMPLES) as [_|Hge]; [reflexivity|].
      apply history_of_enough in Hge. lia.
  - intros r Hin. apply slice_last_In in Hin. apply filter_In in Hin.
    apply (qualifies_spec name r), Hin.
  - apply slice_last_suffix.
  - apply history_of_length.
  - apply detectAnomaly_history. unfold history_of.
    rewrite filter_qualifies_timed. reflexivity.
Qed.

(** Four successful runs of a fresh endpoint, then a slow fifth one. *)
Lemma detectAnomaly_baseline_witness :
  (List.length (filter (qualifies "A") (repeat (entry_of "A" (Some 100%Z)) 4))
   < ANOMALY_MIN_SAMPLES)%nat
  /\ detectAnomaly "A" (Some 5000) (repeat (entry_of "A" (Some 100)) 4)
     = not_detected.
Proof.
  assert (Hfew : (List.length (filter (qualifies "A")
                                 (repeat (entry_of "A" (Some 100%Z)) 4))
                  < ANOMALY_MIN_SAMPLES)%nat) by (vm_compute; lia).
  split; [exact Hfew|].
  destruct (detectAnomaly_baseline "A" (Some 5000)
              (repeat (entry_of "A" (Some 100)) 4)) as [Hnone _].
  apply Hnone. right. exact Hfew.
Defined.

(** C9: with at least five qualifying samples whose rolling average rounds
    to zero nothing is detected and control does not reach the division; in
    general the division is only ever reached with a divisor other than
    zero. *)
Theorem zero_average_not_scored (name : string) (currentMs : option Z)
    (log : list ProbeResult) :
  ((ANOMALY_MIN_SAMPLES <= List.length (filter (qualifies name) log))%nat ->
   rolling_average (history_of name log) = 0 ->
   detectAnomaly name currentMs log = not_detected
   /\ scoring_divisor name currentMs log = None)
  /\ (forall d, scoring_divisor name currentMs log = Some d -> d <> 0).
Proof.
  split.
  - intros _ Hzero.
    assert (Hnone : scoring_divisor name currentMs log = None).
    { unfold scoring_divisor. destruct currentMs; [|reflexivity].
      cbv zeta. rewrite Hzero.
      destruct (List.length (history_of name log) <? ANOMALY_MIN_SAMPLES)%nat;
        reflexivity. }
    split; [|exact Hnone].
    rewrite detectAnomaly_scored, Hnone. reflexivity.
  - intros d Hd. apply (scoring_divisor_nonzero name currentMs log d Hd).
Qed.

(** Five samples of 0 ms, then 120 ms. *)
Lemma zero_average_not_scored_witness :
  (ANOMALY_MIN_SAMPLES
   <= List.length (filter (qualifies "A")
                     (repeat (entry_of "A" (Some 0%Z)) 5)))%nat
  /\ rolling_average (history_of "A" (repeat (entry_of "A" (Some 0)) 5)) = 0
  /\ detectAnomaly "A" (Some 120) (repeat (entry_of "A" (Some 0)) 5)
     = not_detected.
Proof.
  assert (H5 : (ANOMALY_MIN_SAMPLES
                <= List.length (filter (qualifies "A")
                                  (repeat (entry_of "A" (Some 0%Z)) 5)))%nat)
    by (vm_compute; lia).
  assert (H0 : rolling_average
                 (history_of "A" (repeat (entry_of "A" (Some 0)) 5)) = 0)
    by reflexivity.
  split; [exact H5|split; [exact H0|]].
  destruct (zero_average_not_scored "A" (Some 120)
              (repeat (entry_of "A" (Some 0)) 5)) as [Hzero _].
  apply (Hzero H5 H0).
Defined.

Lemma verdict_for_shape (avg : Z) (factor : Js.Fixed2) :
  let v := verdict_for avg factor in
  (detected v = true ->
   rollingAvgMs v = Some avg
   /\ deviationFactor v = Some factor
   /\ (2 <= Js.parseFloat factor)%Q
   /\ (severity v = Some critical <-> (3 <= Js.parseFloat factor)%Q)
   /\ (severity v = Some warning <-> (Js.parseFloat factor < 3)%Q))
  /\ (detected v = false -> v = not_detected).
Proof.
  unfold verdict_for, ANOMALY_CRITICAL_FACTOR, ANOMALY_WARNING_FACTOR.
  change (inject_Z 3) with 3%Q. change (inject_Z 2) with 2%Q.
  destruct (Qle_bool 3 (Js.parseFloat factor)) eqn:H3.
  - apply Qle_bool_iff in H3. cbn. split; [intros _|discriminate].
    repeat split; try (intros; lra); try discriminate.
  - assert (N3 : ~ (3 <= Js.parseFloat factor)%Q)
      by (rewrite <- Qle_bool_iff; congruence).
    destruct (Qle_bool 2 (Js.parseFloat factor)) eqn:H2.
    + apply Qle_bool_iff in H2. cbn. split; [intros _|discriminate].
      repeat split; try (intros; lra); try discriminate;
        try (intros; contradiction).
    + cbn. split; [discriminate|reflexivity].
Qed.

(** C10, amended: a verdict with [detected = true] carries the rolling
    average, an integer other than zero (at least 1 when no sample of the
    baseline window has a negative response time), and a deviation factor of
    at least 2, with severity [critical] exactly when the factor is at least
    3 and [warning] otherwise; a verdict with [detected = false] carries
    none of the three further keys. *)
Theorem detectAnomaly_verdict_shape (name : string) (currentMs : option Z)
    (log : list ProbeResult) :
  let v := detectAnomaly name currentMs log in
  (detected v = true ->
   exists avg factor,
     rollingAvgMs v = Some avg
     /\ avg = rolling_average (history_of name log)
     /\ avg <> 0
     /\ ((forall r t, In r (history_of name log) ->
            responseTimeMs r = Some t -> 0 <= t) -> 1 <= avg)
     /\ deviationFactor v = Some factor
     /\ (2 <= Js.parseFloat factor)%Q
     /\ (severity v = Some critical <-> (3 <= Js.parseFloat factor)%Q)
     /\ (severity v = Some warning <-> (Js.parseFloat factor < 3)%Q))
  /\ (detected v = false ->
      rollingAvgMs v = None /\ deviationFactor v = None /\ severity v = None).
Proof.
  cbv zeta. rewrite detectAnomaly_scored.
  destruct (scoring_divisor name currentMs log) as [avg|] eqn:Hdiv;
    [destruct currentMs as [c|]|]; try (split; [discriminate|now repeat split]).
  destruct (verdict_for_shape avg (deviation c avg)) as [Hyes Hno].
  split.
  - intros Hdet. destruct (Hyes Hdet) as (Havg & Hfac & H2 & Hcrit & Hwarn).
    exists avg, (deviation c avg).
    destruct (scoring_divisor_nonzero name (Some c) log avg Hdiv)
      as [Hdef Hnz].
    repeat split; try assumption; try (apply Hcrit); try (apply Hwarn).
    intros Hall. pose proof (rolling_average_nonneg _ Hall). lia.
  - intros Hdet. rewrite (Hno Hdet). now repeat split.
Qed.

Lemma detectAnomaly_verdict_shape_witness :
  detected (detectAnomaly "A" (Some 350) (repeat (entry_of "A" (Some 100)) 9))
  = true
  /\ exists avg factor,
       rollingAvgMs
         (detectAnomaly "A" (Some 350) (repeat (entry_of "A" (Some 100)) 9))
       = Some avg
       /\ avg <> 0
       /\ 1 <= avg
       /\ deviationFactor
            (detectAnomaly "A" (Some 350) (repeat (entry_of "A" (Some 100)) 9))
          = Some factor
       /\ (2 <= Js.parseFloat factor)%Q.
Proof.
  split; [reflexivity|].
  destruct (detectAnomaly_verdict_shape "A" (Some 350)
              (repeat (entry_of "A" (Some 100)) 9)) as [Hyes _].
  destruct (Hyes eq_refl) as (avg & factor & Ha & _ & Hnz & Hpos & Hf & H2 & _).
  exists avg, factor. repeat split; try assumption.
  apply Hpos. intros r t Hin Ht. vm_compute in Hin.
  repeat (destruct Hin as [<-|Hin]; [injection Ht as <-; lia|]).
  contradiction.
Defined.

(** C10 as stated fails on a baseline of negative response times: the
    anomaly is detected against a rolling average of -100. *)
Lemma detectAnomaly_negative_average :
  let v := detectAnomaly "A" (Some (-300))
             (repeat (entry_of "A" (Some (-100))) 5) in
  detected v = true
  /\ rollingAvgMs v = Some (-100)
  /\ ~ (exists avg, rollingAvgMs v = Some avg /\ 1 <= avg).
Proof.
  cbv zeta. split; [reflexivity|split; [reflexivity|]].
  intros (avg & Havg & Hpos). vm_compute in Havg.
  injection Havg as <-. lia.
Qed.

(** ** The prober *)

(** Every result carries a response time; the error is set exactly on the
    failure path. *)
Lemma checkEndpoint_time_and_error (ep : Endpoint.Config) (env : Probe) :
  responseTimeMs (checkEndpoint ep env) <> None
  /\ (error (checkEndpoint ep env) <> None <-> failed env).
Proof.
  unfold checkEndpoint, failed.
  destruct (fetched env) as [now response [body|now' err]|now err]; cbn;
    split; try discriminate; split; intros; try exact I; try discriminate;
    try contradiction; congruence.
Qed.

(** The result of a request the timer aborted. *)
Lemma checkEndpoint_on_timeout (ep : Endpoint.Config) (env : Probe)
    (now : Z) (err : JsError) :
  fetched env = Rejected now err ->
  err_name err = "AbortError"%string ->
  let r := checkEndpoint ep env in
  error r = Some "Request timed out after 15000ms"%string
  /\ ok r = false
  /\ status r = None
  /\ value (extraMetric r) = None
  /\ responseTimeMs r = Some (now - t0 env)
  /\ anomaly r = not_detected.
Proof.
  intros Hf Hname. unfold checkEndpoint. rewrite Hf, Hname. cbn.
  repeat split.
Qed.

(** C1 fails on the code: a probe whose connection is refused after 12 ms
    gets both an error and a response time. *)
Theorem failed_probe_keeps_response_time :
  let r := checkEndpoint structures_endpoint (refuses 12) in
  error r = Some "fetch failed"%string /\ responseTimeMs r = Some 12.
Proof. cbv zeta. split; reflexivity. Qed.

(** ** The log store *)

Section Runs.
Context `{Json}.

Lemma readLog_total (disk : Disk) : exists log, readLog disk = Return log.
Proof.
  unfold readLog, readFileSync. destruct (file disk) as [raw|]; cbn;
    [|now exists []].
  destruct (JSON_parse raw) as [[entries|]|e]; cbn; eauto.
Qed.

Lemma readLog_holds (disk : Disk) (entries : list ProbeResult) :
  holds_log disk entries -> readLog disk = Return entries.
Proof.
  unfold holds_log, readLog, readFileSync.
  destruct (file disk) as [raw|]; cbn.
  - intros ->. reflexivity.
  - intros ->. reflexivity.
Qed.

Lemma trimmed_length (log : list ProbeResult) :
  List.length (trimmed log) = Nat.min (List.length log) MAX_LOG_ENTRIES.
Proof. apply slice_last_length. discriminate. Qed.

Lemma trimmed_short (log : list ProbeResult) :
  (List.length log <= MAX_LOG_ENTRIES)%nat -> trimmed log = log.
Proof. apply slice_last_short. Qed.

(** A write that took place left the text of the trimmed log. *)
Lemma writeLog_Return (log : list ProbeResult) (disk disk' : Disk) :
  writeLog log disk = Return disk' ->
  write_error disk = None
  /\ disk' = {| file := Some (JSON_stringify (trimmed log));
                write_error := None |}.
Proof.
  unfold writeLog, writeFileSync.
  destruct (write_error disk); [discriminate|].
  intros [= <-]. split; reflexivity.
Qed.

(** C3: what [writeLog] persists is the input cut to its last
    [MAX_LOG_ENTRIES] entries: at most 200 of them, exactly 200 when the
    input is longer, and a suffix of the input, so the surviving entries
    keep their order and content and the oldest are the ones dropped.  (A
    write that fails throws and persists nothing.) *)
Theorem writeLog_keeps_tail (log : list ProbeResult) (disk : Disk) :
  writeLog log disk
  = match write_error disk with
    | None => Return {| file := Some (JSON_stringify (trimmed log));
                        write_error := None |}
    | Some err => Throw err
    end
  /\ (List.length (trimmed log) <= MAX_LOG_ENTRIES)%nat
  /\ List.length (trimmed log) = Nat.min (List.length log) MAX_LOG_ENTRIES
  /\ exists evicted, log = evicted ++ trimmed log.
Proof.
  split.
  { unfold writeLog, writeFileSync. destruct (write_error disk); reflexivity. }
  pose proof (trimmed_length log) as Hlen.
  split; [lia|split; [exact Hlen|]].
  apply slice_last_suffix.
Qed.

Lemma readLog_after_writeLog (log : list ProbeResult) (disk disk' : Disk) :
  round_trips ->
  writeLog log disk = Return disk' ->
  readLog disk' = Return (Js.slice_last MAX_LOG_ENTRIES log).
Proof.
  intros Hrt Hwrite. apply writeLog_Return in Hwrite as [_ ->].
  unfold readLog, readFileSync, trimmed. cbn [file bind].
  rewrite Hrt. reflexivity.
Qed.

(** C8: after [writeLog], [readLog] returns the entries written: all of
    them when there are at most 200, the most recent 200 otherwise. *)
Theorem readLog_writeLog (log : list ProbeResult) (disk disk' : Disk) :
  round_trips ->
  writeLog log disk = Return disk' ->
  readLog disk' = Return (trimmed log)
  /\ ((List.length log <= MAX_LOG_ENTRIES)%nat ->
      readLog disk' = Return log)
  /\ ((MAX_LOG_ENTRIES < List.length log)%nat ->
      readLog disk'
      = Return (skipn (List.length log - MAX_LOG_ENTRIES) log)
      /\ List.length (skipn (List.length log - MAX_LOG_ENTRIES) log)
         = MAX_LOG_ENTRIES).
Proof.
  intros Hrt Hwrite.
  assert (Hread : readLog disk' = Return (trimmed log))
    by exact (readLog_after_writeLog log disk disk' Hrt Hwrite).
  split; [exact Hread|split].
  - intros Hle. rewrite Hread, trimmed_short by exact Hle. reflexivity.
  - intros Hgt. split; [exact Hread|].
    rewrite length_skipn. unfold MAX_LOG_ENTRIES in *. lia.
Qed.

(** ** The orchestrator *)

(** What a run does once it has read the log: it completes unless the
    write throws. *)
Lemma run_after_read (endpoints : list Endpoint.Config)
    (world : Endpoint.Config -> Probe) (disk : Disk)
    (before : list ProbeResult) :
  readLog disk = Return before ->
  let results :=
    map (fun ep => annotate before (checkEndpoint ep (world ep))) endpoints in
  run endpoints world disk
  = match write_error disk with
    | None =>
      Return {| results := results;
                disk_after :=
                  {| file := Some (JSON_stringify (trimmed (before ++ results)));
                     write_error := None |};
                exit_code := exit_code_of results |}
    | Some err => Throw err
    end.
Proof.
  intros Hread. cbv zeta. unfold run. rewrite Hread. cbn [bind].
  rewrite map_map. unfold writeLog, writeFileSync.
  destruct (write_error disk); reflexivity.
Qed.

(** A run throws only what the write throws. *)
Lemma run_completes (endpoints : list Endpoint.Config)
    (world : Endpoint.Config -> Probe) (disk : Disk) :
  (write_error disk = None -> exists r, run endpoints world disk = Return r)
  /\ (forall err, write_error disk = Some err ->
        run endpoints world disk = Throw err).
Proof.
  destruct (readLog_total disk) as [log Hread].
  rewrite (run_after_read endpoints world disk log Hread).
  split.
  - intros ->. eauto.
  - intros err ->. reflexivity.
Qed.

Lemma failCount_all (results : list ProbeResult) :
  failCount results = List.length results
  <-> Forall (fun r => ok r = false) results.
Proof.
  unfold failCount. induction results as [|r results IH]; cbn.
  - split; [constructor|reflexivity].
  - pose proof (filter_length_le (fun r => negb (ok r)) results) as Hle.
    destruct (ok r) eqn:Hok; cbn.
    + split; [lia|]. intros Hall. inversion Hall. congruence.
    + split.
      * intros Heq. constructor; [exact Hok|]. apply IH. lia.
      * intros Hall. inversion Hall as [|? ? _ Hrest]. f_equal.
        now apply IH.
Qed.

Lemma exit_code_of_spec (results : list ProbeResult) :
  (exit_code_of results = 1 <-> Forall (fun r => ok r = false) results)
  /\ (Exists (fun r => ok r = true) results -> exit_code_of results = 0).
Proof.
  unfold exit_code_of.
  destruct (Nat.eqb_spec (failCount results) (List.length results)) as [He|Hn].
  - apply failCount_all in He. split; [tauto|].
    intros Hex. apply Exists_exists in Hex as (r & Hin & Hok).
    rewrite Forall_forall in He. specialize (He r Hin). congruence.
  - split; [|reflexivity]. split; [discriminate|].
    intros Hall. apply failCount_all in Hall. contradiction.
Qed.

(** C2: a completed run ends the process with code 1 exactly when every
    result of the run has [ok = false]; with at least one [ok = true] the
    code is 0. *)
Theorem exit_code_total_outage (endpoints : list Endpoint.Config)
    (world : Endpoint.Config -> Probe) (disk : Disk) (r : Run) :
  run endpoints world disk = Return r ->
  (process_exit_code (run endpoints world disk) = 1
   <-> Forall (fun x => ok x = false) (results r))
  /\ (Exists (fun x => ok x = true) (results r) ->
      process_exit_code (run endpoints world disk) = 0).
Proof.
  intros Hrun. rewrite Hrun. cbn [process_exit_code].
  revert Hrun. destruct (readLog_total disk) as [log Hread].
  rewrite (run_after_read endpoints world disk log Hread).
  destruct (write_error disk); [discriminate|].
  intros [= <-]. cbn [results exit_code]. apply exit_code_of_spec.
Qed.


End Runs.

(** ** The reference implementation of [Json] round-trips *)

Module ReferenceJsonFacts.
Import ReferenceJson.
Local Open Scope char_scope.

Lemma ends_number_no_digit (rest : text) :
  ends_number rest = true -> no_digit rest = true.
Proof.
  destruct rest as [|c rest]; [reflexivity|]. cbn.
  now intros [? _]%andb_true_iff.
Qed.

Lemma strip_app (l rest : text) : strip l (l ++ rest) = Some rest.
Proof.
  induction l as [|a l IH]; [reflexivity|].
  cbn. rewrite Ascii.eqb_refl. exact IH.
Qed.

Lemma parse_digits_print (d : Decimal.uint) (rest : text) :
  no_digit rest = true ->
  parse_digits (print_uint d rest) = (d, rest).
Proof.
  intros Hrest. induction d; cbn; try (rewrite IHd; reflexivity).
  destruct rest as [|c rest]; [reflexivity|]. cbn in *.
  unfold is_digit in Hrest. destruct (digit_con c); [discriminate|reflexivity].
Qed.

Lemma to_uint_nonnil (n : N) : N.to_uint n <> Decimal.Nil.
Proof.
  destruct n; cbn; [discriminate|]. apply Unsigned.to_uint_nonnil.
Qed.

Lemma p_unsigned_print (n : N) (rest : text) :
  no_digit rest = true ->
  p_unsigned (print_N n rest) = Some (n, rest).
Proof.
  intros Hrest. unfold p_unsigned, print_N.
  rewrite parse_digits_print by exact Hrest.
  pose proof (to_uint_nonnil n) as Hnn.
  pose proof (DecimalN.Unsigned.of_to n) as Hof.
  destruct (N.to_uint n); try contradiction; rewrite Hof; reflexivity.
Qed.

Lemma number_start_facts (c : ascii) :
  number_start c ->
  is_ws c = false /\ Ascii.eqb "n" c = false /\ Ascii.eqb dquote c = false.
Proof.
  intros [->|Hd]; [repeat split|].
  revert Hd.
  destruct c as [[] [] [] [] [] [] [] []]; cbn; intros; try discriminate;
    repeat split.
Qed.

Lemma print_uint_head (d : Decimal.uint) (rest : text) :
  d <> Decimal.Nil ->
  exists c s, print_uint d rest = c :: s /\ is_digit c = true.
Proof.
  intros Hd. destruct d; try contradiction; cbn; eauto.
Qed.

Lemma is_digit_not_minus (c : ascii) :
  is_digit c = true -> Ascii.eqb c "-" = false.
Proof.
  destruct c as [[] [] [] [] [] [] [] []]; cbn; intros; try discriminate;
    reflexivity.
Qed.

Lemma print_N_head (n : N) (rest : text) :
  exists c s, print_N n rest = c :: s /\ is_digit c = true.
Proof. apply print_uint_head, to_uint_nonnil. Qed.

(** Sign and magnitude, as the number parsers read them. *)
Lemma p_sign_print (z : Z) (n : N) (rest : text) :
  p_sign (skip_ws (print_sign z (print_N n rest)))
  = ((z <? 0)%Z, print_N n rest).
Proof.
  unfold print_sign. destruct (z <? 0)%Z; [reflexivity|].
  destruct (print_N_head n rest) as (c & s & -> & Hc).
  destruct (number_start_facts c (or_intror Hc)) as (Hws & _).
  cbn. rewrite Hws. cbn. now rewrite (is_digit_not_minus c Hc).
Qed.

Lemma signed_abs (z : Z) : signed (z <? 0)%Z (Z.of_N (Z.abs_N z)) = z.
Proof.
  unfold signed. rewrite N2Z.inj_abs_N.
  destruct (Z.ltb_spec z 0); lia.
Qed.

Lemma p_Z_print (z : Z) (rest : text) :
  no_digit rest = true -> p_Z (print_Z z rest) = Some (z, rest).
Proof.
  intros Hrest. unfold p_Z, print_Z.
  rewrite p_sign_print, p_unsigned_print by exact Hrest.
  cbn. now rewrite signed_abs.
Qed.

Lemma digit_value_digit (k : Z) :
  (0 <= k <= 9)%Z -> digit_value (digit k) = Some k.
Proof.
  intros Hk.
  assert (Hcases : (k = 0 \/ k = 1 \/ k = 2 \/ k = 3 \/ k = 4 \/ k = 5
                    \/ k = 6 \/ k = 7 \/ k = 8 \/ k = 9)%Z) by lia.
  repeat (destruct Hcases as [->|Hcases]; [reflexivity|]).
  subst. reflexivity.
Qed.

Lemma digit_is_digit (k : Z) : (0 <= k <= 9)%Z -> is_digit (digit k) = true.
Proof.
  intros Hk. pose proof (digit_value_digit k Hk) as Hv.
  unfold digit_value in Hv. destruct (is_digit (digit k)); congruence.
Qed.

Lemma digit_value_none (c : ascii) : is_digit c = false -> digit_value c = None.
Proof. unfold digit_value. now intros ->. Qed.

Lemma p_fraction_print (f : Z) (rest : text) :
  (0 <= f < 100)%Z -> ends_number rest = true ->
  p_fraction (print_fraction f rest) = Some (f, rest).
Proof.
  intros Hf Hrest. unfold print_fraction.
  destruct (Z.eqb_spec f 0) as [->|Hnz].
  - destruct rest as [|c rest]; [reflexivity|]. cbn in Hrest |- *.
    apply andb_true_iff in Hrest as [_ Hdot].
    apply negb_true_iff in Hdot. now rewrite Hdot.
  - assert (H1 : (0 <= f / 10 <= 9)%Z)
      by (split; [apply Z.div_pos; lia|apply Z.lt_succ_r, Z.div_lt_upper_bound; lia]).
    assert (H2 : (0 <= f mod 10 <= 9)%Z)
      by (pose proof (Z.mod_pos_bound f 10); lia).
    unfold p_fraction. rewrite Ascii.eqb_refl, (digit_value_digit _ H1).
    destruct (Z.eqb_spec (f mod 10) 0) as [Hz|Hnz2].
    + assert (Hf10 : (f / 10 * 10 = f)%Z)
        by (pose proof (Z.div_mod f 10); lia).
      destruct rest as [|c rest]; [now rewrite Hf10|].
      cbn in Hrest. apply andb_true_iff in Hrest as [Hd _].
      apply negb_true_iff in Hd. rewrite (digit_value_none c Hd).
      now rewrite Hf10.
    + rewrite (digit_value_digit _ H2).
      assert (Hf10 : (f / 10 * 10 + f mod 10 = f)%Z)
        by (pose proof (Z.div_mod f 10); lia).
      now rewrite Hf10.
Qed.

Lemma print_fraction_ends (f : Z) (rest : text) :
  ends_number rest = true -> no_digit (print_fraction f rest) = true.
Proof.
  intros Hrest. unfold print_fraction. destruct (f =? 0)%Z; [|reflexivity].
  now apply ends_number_no_digit.
Qed.

Lemma fixed2_value (n : Z) :
  signed (n <? 0)%Z (Z.of_N (Z.abs_N n / 100) * 100 + Z.abs n mod 100)%Z = n.
Proof.
  rewrite N2Z.inj_div, N2Z.inj_abs_N. change (Z.of_N 100) with 100%Z.
  pose proof (Z.div_mod (Z.abs n) 100). unfold signed.
  destruct (Z.ltb_spec n 0); lia.
Qed.

Lemma p_fixed2_print (d : Js.Fixed2) (rest : text) :
  ends_number rest = true -> p_fixed2 (print_fixed2 d rest) = Some (d, rest).
Proof.
  intros Hrest. destruct d as [n]. unfold p_fixed2, print_fixed2.
  cbn [Js.hundredths].
  rewrite p_sign_print, p_unsigned_print
    by (apply print_fraction_ends; exact Hrest).
  cbn [with_value].
  rewrite p_fraction_print;
    [|pose proof (Z.mod_pos_bound (Z.abs n) 100); lia|exact Hrest].
  cbn [with_value]. now rewrite fixed2_value.
Qed.

Lemma parse_string_body_char (c : ascii) (s : text) :
  parse_string_body (escape_char c ++ s) = push c (parse_string_body s).
Proof.
  destruct c as [[] [] [] [] [] [] [] []]; reflexivity.
Qed.

Lemma parse_string_body_print (l rest : text) :
  parse_string_body (flat_map escape_char l ++ dquote :: rest) = Some (l, rest).
Proof.
  induction l as [|c l IH]; [reflexivity|].
  cbn [flat_map]. rewrite <- app_assoc, parse_string_body_char, IH.
  reflexivity.
Qed.

Lemma p_string_print (s : string) (rest : text) :
  p_string (print_string s rest) = Some (s, rest).
Proof.
  unfold p_string, print_string, tok, lit. cbn [skip_ws strip after].
  change (is_ws dquote) with false. cbn [strip].
  rewrite Ascii.eqb_refl. cbn [strip after].
  rewrite parse_string_body_print. cbn [with_value]. unfold chars.
  now rewrite string_of_list_ascii_of_string.
Qed.

(** Whitespace before a token. *)
Lemma lit_ws (l : text) (c : ascii) (s : text) :
  is_ws c = true -> lit l (c :: s) = lit l s.
Proof. intros Hc. unfold lit. cbn [skip_ws]. now rewrite Hc. Qed.

Lemma skip_ws_indent (n : nat) (s : text) : skip_ws (indent n s) = skip_ws s.
Proof.
  unfold indent. cbn [skip_ws]. change (is_ws newline) with true. cbn iota.
  induction n as [|n IH]; [reflexivity|exact IH].
Qed.

Lemma tok_same (c : ascii) (s : text) :
  is_ws c = false -> tok c (c :: s) = Some s.
Proof.
  intros Hc. unfold tok, lit. cbn [skip_ws]. rewrite Hc. cbn [strip].
  now rewrite Ascii.eqb_refl.
Qed.

Lemma tok_indent (c : ascii) (n : nat) (s : text) :
  is_ws c = false -> tok c (indent n (c :: s)) = Some s.
Proof.
  intros Hc. pose proof (tok_same c s Hc) as Hsame.
  unfold tok, lit in *. now rewrite skip_ws_indent.
Qed.

Lemma p_key_field (n : nat) (k : string) (v : printer) (rest : text) :
  p_key k (field n k v rest) = Some (space :: v rest).
Proof.
  unfold p_key, field, lit. rewrite skip_ws_indent. unfold print_key.
  cbn [skip_ws]. change (is_ws dquote) with false. cbn iota.
  change (dquote :: chars k ++ dquote :: ":" :: space :: v rest)
    with ((dquote :: chars k) ++ dquote :: ":" :: space :: v rest).
  change (dquote :: chars k ++ [dquote]) with ((dquote :: chars k) ++ [dquote]).
  replace ((dquote :: chars k) ++ dquote :: ":" :: space :: v rest)
    with (((dquote :: chars k) ++ [dquote]) ++ ":" :: space :: v rest)
    by (now rewrite <- app_assoc).
  rewrite strip_app. reflexivity.
Qed.

Lemma p_field_print {A : Type} (n : nat) (k : string) (v : printer)
    (p : text -> option (A * text)) (rest : text) :
  p_field k p (field n k v rest) = p (space :: v rest).
Proof. unfold p_field. now rewrite p_key_field. Qed.

Lemma p_next_print {A : Type} (n : nat) (k : string) (v : printer)
    (p : text -> option (A * text)) (rest : text) :
  p_next k p ("," :: field n k v rest) = p (space :: v rest).
Proof.
  unfold p_next. rewrite tok_same by reflexivity. apply p_field_print.
Qed.

(** The value parsers on the text of their values, behind the space that
    follows the colon. *)
Lemma p_string_sp (s : string) (rest : text) :
  p_string (space :: print_string s rest) = Some (s, rest).
Proof.
  rewrite <- (p_string_print s rest). unfold p_string, tok.
  now rewrite lit_ws.
Qed.

Lemma p_Z_sp (z : Z) (rest : text) :
  no_digit rest = true -> p_Z (space :: print_Z z rest) = Some (z, rest).
Proof. intros Hrest. rewrite <- (p_Z_print z rest Hrest). reflexivity. Qed.

Lemma p_fixed2_sp (d : Js.Fixed2) (rest : text) :
  ends_number rest = true ->
  p_fixed2 (space :: print_fixed2 d rest) = Some (d, rest).
Proof. intros Hrest. rewrite <- (p_fixed2_print d rest Hrest). reflexivity. Qed.

Lemma p_bool_sp (b : bool) (rest : text) :
  p_bool (space :: print_bool b rest) = Some (b, rest).
Proof. destruct b; reflexivity. Qed.

Lemma print_Z_head (z : Z) (rest : text) :
  exists c s, print_Z z rest = c :: s /\ number_start c.
Proof.
  unfold print_Z, print_sign. destruct (z <? 0)%Z.
  - eexists _, _. split; [reflexivity|now left].
  - destruct (print_N_head (Z.abs_N z) rest) as (c & s & -> & Hc).
    eexists _, _. split; [reflexivity|now right].
Qed.

Lemma print_fixed2_head (d : Js.Fixed2) (rest : text) :
  exists c s, print_fixed2 d rest = c :: s /\ number_start c.
Proof.
  unfold print_fixed2, print_sign. destruct (Js.hundredths d <? 0)%Z.
  - eexists _, _. split; [reflexivity|now left].
  - destruct (print_N_head (Z.abs_N (Js.hundredths d) / 100)
                (print_fraction (Z.abs (Js.hundredths d) mod 100) rest))
      as (c & s & -> & Hc).
    eexists _, _. split; [reflexivity|now right].
Qed.

Lemma lit_null_number (c : ascii) (s : text) :
  number_start c -> lit (chars "null") (space :: c :: s) = None.
Proof.
  intros Hc. destruct (number_start_facts c Hc) as (Hws & Hn & _).
  unfold lit. cbn [skip_ws]. change (is_ws space) with true. cbn iota.
  rewrite Hws. unfold chars. cbn [list_ascii_of_string strip].
  now rewrite Hn.
Qed.

Lemma p_nullable_Z_sp (o : option Z) (rest : text) :
  no_digit rest = true ->
  p_nullable p_Z (space :: print_nullable print_Z o rest) = Some (o, rest).
Proof.
  intros Hrest. destruct o as [z|]; [|reflexivity].
  unfold p_nullable, print_nullable.
  destruct (print_Z_head z rest) as (c & s & Heq & Hc).
  rewrite Heq, (lit_null_number c s Hc), <- Heq, p_Z_sp by exact Hrest.
  reflexivity.
Qed.

Lemma p_nullable_fixed2_sp (o : option Js.Fixed2) (rest : text) :
  ends_number rest = true ->
  p_nullable p_fixed2 (space :: print_nullable print_fixed2 o rest)
  = Some (o, rest).
Proof.
  intros Hrest. destruct o as [d|]; [|reflexivity].
  unfold p_nullable, print_nullable.
  destruct (print_fixed2_head d rest) as (c & s & Heq & Hc).
  rewrite Heq, (lit_null_number c s Hc), <- Heq, p_fixed2_sp by exact Hrest.
  reflexivity.
Qed.

Lemma p_nullable_string_sp (o : option string) (rest : text) :
  p_nullable p_string (space :: print_nullable print_string o rest)
  = Some (o, rest).
Proof.
  destruct o as [s|]; [|reflexivity].
  unfold p_nullable, print_nullable.
  change (lit (chars "null") (space :: print_string s rest)) with (@None text).
  now rewrite p_string_sp.
Qed.

Lemma p_metric_value_sp (v : MetricValue) (rest : text) :
  no_digit rest = true ->
  p_metric_value (space :: print_metric_value v rest) = Some (v, rest).
Proof.
  intros Hrest. unfold p_metric_value. destruct v as [n|s]; cbn [print_metric_value].
  - destruct (print_Z_head n rest) as (c & t & Heq & Hc).
    destruct (number_start_facts c Hc) as (Hws & _ & Hq).
    assert (Htok : tok dquote (space :: print_Z n rest) = None).
    { rewrite Heq. unfold tok, lit. cbn [skip_ws].
      change (is_ws space) with true. cbn iota. rewrite Hws. cbn [strip].
      now rewrite Hq. }
    rewrite Htok, p_Z_sp by exact Hrest. reflexivity.
  - change (tok dquote (space :: print_string s rest))
      with (Some (flat_map escape_char (chars s) ++ dquote :: rest)).
    now rewrite p_string_sp.
Qed.

Lemma p_nullable_metric_value_sp (o : option MetricValue) (rest : text) :
  no_digit rest = true ->
  p_nullable p_metric_value
    (space :: print_nullable print_metric_value o rest) = Some (o, rest).
Proof.
  intros Hrest. destruct o as [v|]; [|reflexivity].
  unfold p_nullable, print_nullable.
  assert (Hnull : lit (chars "null") (space :: print_metric_value v rest) = None).
  { destruct v as [n|s]; cbn [print_metric_value]; [|reflexivity].
    destruct (print_Z_head n rest) as (c & t & -> & Hc).
    now apply lit_null_number. }
  rewrite Hnull, p_metric_value_sp by exact Hrest. reflexivity.
Qed.

Lemma p_severity_sp (s : Severity) (rest : text) :
  p_severity (space :: print_severity s rest) = Some (s, rest).
Proof.
  unfold p_severity, print_severity. rewrite p_string_sp.
  destruct s; reflexivity.
Qed.

Lemma p_metric_sp (m : ExtraMetric) (rest : text) :
  p_metric (space :: print_metric m rest) = Some (m, rest).
Proof.
  destruct m as [l v]. unfold p_metric, print_metric. cbn [label value].
  unfold tok at 1. rewrite lit_ws by reflexivity. fold (tok "{").
  rewrite tok_same by reflexivity. cbn [after].
  rewrite p_field_print, p_string_sp. cbn [with_value].
  rewrite p_next_print, p_nullable_metric_value_sp by reflexivity.
  cbn [with_value]. rewrite tok_indent by reflexivity. reflexivity.
Qed.

Lemma p_opt_field_some {A : Type} (n : nat) (k : string) (v : printer)
    (p : text -> option (A * text)) (rest : text) :
  p_opt_field k p ("," :: field n k v rest)
  = p (space :: v rest) >>= fun a r' => Some (Some a, r').
Proof.
  unfold p_opt_field. rewrite tok_same by reflexivity. cbn [after].
  now rewrite p_key_field.
Qed.

Lemma p_verdict_sp (v : AnomalyVerdict) (rest : text) :
  p_verdict (space :: print_verdict v rest) = Some (v, rest).
Proof.
  destruct v as [d avg f sev]. unfold p_verdict, print_verdict.
  cbn [detected rollingAvgMs deviationFactor severity].
  unfold tok at 1. rewrite lit_ws by reflexivity. fold (tok "{").
  rewrite tok_same by reflexivity. cbn [after].
  rewrite p_field_print, p_bool_sp. cbn [with_value].
  destruct avg as [avg|], f as [f|], sev as [sev|]; cbn [opt_field];
    repeat first
      [ rewrite p_opt_field_some
      | rewrite p_Z_sp by reflexivity
      | rewrite p_fixed2_sp by reflexivity
      | rewrite p_severity_sp
      | rewrite tok_indent by reflexivity
      | progress cbn [with_value after]
      | match goal with
        | |- context [@p_opt_field ?A ?k ?p ?s] =>
          let H := fresh in
          assert (H : @p_opt_field A k p s = Some (None, s)) by reflexivity;
          rewrite H; clear H
        end ];
    reflexivity.
Qed.

Lemma p_entry_print (n : nat) (r : ProbeResult) (rest : text) :
  p_entry (indent n (print_entry r rest)) = Some (r, rest).
Proof.
  destruct r as [v1 v2 v3 v4 v5 v6 v7 v8 v9 v10 v11].
  unfold p_entry, print_entry.
  cbn [endpoint url timestamp status ok responseTimeMs contentTypeValid
       responseSizeKB extraMetric anomaly error].
  rewrite tok_indent by reflexivity. cbn [after].
  rewrite p_field_print, p_string_sp. cbn [with_value].
  rewrite p_next_print, p_string_sp. cbn [with_value].
  rewrite p_next_print, p_string_sp. cbn [with_value].
  rewrite p_next_print, p_nullable_Z_sp by reflexivity. cbn [with_value].
  rewrite p_next_print, p_bool_sp. cbn [with_value].
  rewrite p_next_print, p_nullable_Z_sp by reflexivity. cbn [with_value].
  rewrite p_next_print, p_bool_sp. cbn [with_value].
  rewrite p_next_print, p_nullable_fixed2_sp by reflexivity. cbn [with_value].
  rewrite p_next_print, p_metric_sp. cbn [with_value].
  rewrite p_next_print, p_verdict_sp. cbn [with_value].
  rewrite p_next_print, p_nullable_string_sp. cbn [with_value].
  rewrite tok_indent by reflexivity. reflexivity.
Qed.

Lemma grows_cons (c : ascii) (a b : text) :
  (List.length a <= List.length b)%nat ->
  (List.length a <= List.length (c :: b))%nat.
Proof. cbn. lia. Qed.

Lemma grows_app (l a b : text) :
  (List.length a <= List.length b)%nat ->
  (List.length a <= List.length (l ++ b))%nat.
Proof. rewrite length_app. lia. Qed.

Lemma grows_after (p : printer) (a b : text) :
  grows p -> (List.length a <= List.length b)%nat ->
  (List.length a <= List.length (p b))%nat.
Proof. intros Hp Hab. specialize (Hp b). lia. Qed.

Lemma grows_uint (d : Decimal.uint) : grows (print_uint d).
Proof.
  intros rest. induction d; cbn [print_uint List.length]; lia.
Qed.

Lemma grows_sign (z : Z) : grows (print_sign z).
Proof. intros rest. unfold print_sign. destruct (z <? 0)%Z; cbn; lia. Qed.

Lemma grows_Z (z : Z) : grows (print_Z z).
Proof.
  intros rest. unfold print_Z, print_N.
  apply grows_after; [apply grows_sign|apply grows_uint].
Qed.

Lemma grows_fixed2 (d : Js.Fixed2) : grows (print_fixed2 d).
Proof.
  intros rest. unfold print_fixed2, print_N, print_fraction.
  apply grows_after; [apply grows_sign|].
  apply grows_after; [apply grows_uint|].
  destruct (_ =? 0)%Z; [lia|]. destruct (_ =? 0)%Z; cbn; lia.
Qed.

Lemma grows_string (s : string) : grows (print_string s).
Proof.
  intros rest. unfold print_string. cbn [List.length].
  rewrite length_app. cbn. lia.
Qed.

Lemma grows_bool (b : bool) : grows (print_bool b).
Proof. intros rest. destruct b; cbn; lia. Qed.

Lemma grows_nullable {A : Type} (pr : A -> printer) (o : option A) :
  (forall a, grows (pr a)) -> grows (print_nullable pr o).
Proof.
  intros Hpr rest. destruct o as [a|]; cbn; [apply Hpr|lia].
Qed.

Lemma grows_indent (n : nat) : grows (indent n).
Proof.
  intros rest. unfold indent. cbn [List.length]. rewrite length_app. lia.
Qed.

Lemma grows_field (n : nat) (k : string) (v : printer) :
  grows v -> grows (field n k v).
Proof.
  intros Hv rest. unfold field, print_key.
  apply grows_after; [apply grows_indent|].
  apply grows_cons, grows_app. do 3 apply grows_cons. apply Hv.
Qed.

Lemma grows_opt_field {A : Type} (n : nat) (k : string) (pr : A -> printer)
    (o : option A) :
  (forall a, grows (pr a)) -> grows (opt_field n k pr o).
Proof.
  intros Hpr rest. destruct o as [a|]; cbn [opt_field]; [|lia].
  apply grows_cons, grows_field, Hpr.
Qed.

Lemma grows_metric_value (v : MetricValue) : grows (print_metric_value v).
Proof. destruct v; [apply grows_Z|apply grows_string]. Qed.

Ltac grow :=
  repeat lazymatch goal with
  | |- (?a <= ?a)%nat => apply Nat.le_refl
  | |- (_ <= List.length (_ :: _))%nat => apply grows_cons
  | |- (_ <= List.length (field ?n ?k ?v _))%nat =>
    apply (grows_after (field n k v)); [apply grows_field|]
  | |- (_ <= List.length (@opt_field ?A ?n ?k ?pr ?o _))%nat =>
    apply (grows_after (@opt_field A n k pr o));
    [apply grows_opt_field; intros ?|]
  | |- (_ <= List.length (indent ?n _))%nat =>
    apply (grows_after (indent n)); [apply grows_indent|]
  | |- grows (print_nullable _ _) => apply grows_nullable; intros ?
  | |- grows (print_string _) => apply grows_string
  | |- grows (print_severity _) => apply grows_string
  | |- grows (print_bool _) => apply grows_bool
  | |- grows (print_Z _) => apply grows_Z
  | |- grows (print_fixed2 _) => apply grows_fixed2
  | |- grows (print_metric_value _) => apply grows_metric_value
  end.

Lemma grows_metric (m : ExtraMetric) : grows (print_metric m).
Proof. intros rest. unfold print_metric. grow. Qed.

Lemma grows_verdict (v : AnomalyVerdict) : grows (print_verdict v).
Proof. intros rest. unfold print_verdict. grow. Qed.

Lemma grows_entry (r : ProbeResult) : grows (print_entry r).
Proof.
  intros rest. unfold print_entry. grow;
    first [apply grows_metric|apply grows_verdict].
Qed.

Lemma grows_more (log : list ProbeResult) (rest : text) :
  (List.length log <= List.length (print_more log rest))%nat.
Proof.
  induction log as [|r log IH]; cbn [print_more List.length]; [lia|].
  pose proof (grows_indent 2 (print_entry r (print_more log rest))).
  pose proof (grows_entry r (print_more log rest)). lia.
Qed.

Lemma tok_entry (c : ascii) (n : nat) (r : ProbeResult) (rest : text) :
  Ascii.eqb c "{" = false -> tok c (indent n (print_entry r rest)) = None.
Proof.
  intros Hc. unfold tok, lit. rewrite skip_ws_indent. unfold print_entry.
  cbn [skip_ws]. change (is_ws "{") with false. cbn [strip]. now rewrite Hc.
Qed.

Lemma p_more_print (log : list ProbeResult) (rest : text) (fuel : nat) :
  (List.length log < fuel)%nat ->
  p_more fuel (print_more log rest) = Some (log, rest).
Proof.
  revert fuel. induction log as [|r log IH]; intros fuel Hfuel;
    (destruct fuel as [|fuel]; [lia|]); cbn [p_more print_more].
  - rewrite tok_indent by reflexivity. reflexivity.
  - change (tok "]" ("," :: indent 2 (print_entry r (print_more log rest))))
      with (@None text).
    rewrite tok_same by reflexivity. cbn [after].
    rewrite p_entry_print. cbn [with_value].
    rewrite IH by (cbn in Hfuel; lia). reflexivity.
Qed.

Lemma p_log_print (log : list ProbeResult) :
  p_log (print_log log) = Some (log, []).
Proof.
  destruct log as [|r log]; [reflexivity|].
  unfold p_log, print_log. rewrite tok_same by reflexivity. cbn [after].
  rewrite tok_entry by reflexivity.
  rewrite p_entry_print. cbn [with_value].
  rewrite p_more_print; [reflexivity|].
  pose proof (grows_more log []). lia.
Qed.

(** The reference implementation satisfies the round-trip law. *)
Lemma reference_round_trips : @round_trips json.
Proof.
  intros log. cbn [JSON_parse JSON_stringify json]. unfold parse, stringify, chars.
  rewrite list_ascii_of_string_of_list_ascii.
  assert (Htok : tok "[" (print_log log) <> None).
  { destruct log; cbn; discriminate. }
  destruct (tok "[" (print_log log)); [|contradiction].
  now rewrite p_log_print.
Qed.

End ReferenceJsonFacts.

(** ** Runs on the reference implementation *)

(** On the reference implementation the log read back is the log written,
    cut to its last 200 entries. *)
Lemma reference_log_round_trip (log : list ProbeResult) (disk disk' : Disk) :
  @writeLog ReferenceJson.json log disk = Return disk' ->
  @readLog ReferenceJson.json disk'
  = Return (Js.slice_last MAX_LOG_ENTRIES log).
Proof.
  apply (@readLog_after_writeLog ReferenceJson.json).
  exact ReferenceJsonFacts.reference_round_trips.
Qed.

(** Scenario E of the specification: one endpoint fails, two succeed. *)
Lemma exit_code_total_outage_witness :
  exists r,
    @main ReferenceJson.json (world_with (refuses 12)) absent = Return r
    /\ List.length (results r) = 3%nat
    /\ Exists (fun x => ok x = true) (results r)
    /\ process_exit_code
         (@main ReferenceJson.json (world_with (refuses 12)) absent) = 0.
Proof.
  eexists. split; [vm_compute; reflexivity|].
  split; [reflexivity|].
  match goal with
  | |- Exists _ (results ?r) /\ _ =>
    assert (Hex : Exists (fun x => ok x = true) (results r))
      by (right; left; reflexivity)
  end.
  split; [exact Hex|].
  refine (proj2 (@exit_code_total_outage ReferenceJson.json ENDPOINTS
                   (world_with (refuses 12)) absent _ _) Hex).
  vm_compute. reflexivity.
Defined.



(** Two entries come back as written; of 201 entries the oldest is lost. *)
Lemma readLog_writeLog_witness :
  @round_trips ReferenceJson.json
  /\ (exists disk',
        @writeLog ReferenceJson.json
          [entry_of "A" (Some 100); entry_of "B" None] absent = Return disk'
        /\ @readLog ReferenceJson.json disk'
           = Return [entry_of "A" (Some 100); entry_of "B" None])
  /\ (exists disk',
        @writeLog ReferenceJson.json
          (entry_of "A" None :: repeat (entry_of "B" (Some 7)) 200) absent
        = Return disk'
        /\ @readLog ReferenceJson.json disk'
           = Return (repeat (entry_of "B" (Some 7)) 200)).
Proof.
  split; [exact ReferenceJsonFacts.reference_round_trips|].
  split.
  - eexists. split; [reflexivity|].
    refine (proj1 (proj2 (@readLog_writeLog ReferenceJson.json _ absent _
                            ReferenceJsonFacts.reference_round_trips
                            eq_refl)) _).
    cbn. unfold MAX_LOG_ENTRIES. lia.
  - eexists. split; [reflexivity|].
    refine (proj1 (proj2 (proj2 (@readLog_writeLog ReferenceJson.json
                            (entry_of "A" None
                             :: repeat (entry_of "B" (Some 7)) 200) absent _
                            ReferenceJsonFacts.reference_round_trips
                            eq_refl)) _)).
    rewrite length_cons, repeat_length. unfold MAX_LOG_ENTRIES. lia.
Defined.

(** C6 fails on the code in its last part: an endpoint with five logged
    samples of 100 ms times out after 15001 ms; the result has the timeout
    message, [ok = false], no status, no metric value and the elapsed time,
    and the annotation of [main] scores that time as a critical anomaly. *)
Theorem timeout_scored_as_anomaly :
  exists r rest run,
    @main ReferenceJson.json (world_with (times_out 15001))
      (holding (ReferenceJson.stringify
                  (repeat (entry_of "Structures" (Some 100)) 5)))
    = Return run
    /\ results run = r :: rest
    /\ endpoint r = "Structures"%string
    /\ error r = Some "Request timed out after 15000ms"%string
    /\ ok r = false
    /\ status r = None
    /\ value (extraMetric r) = None
    /\ responseTimeMs r = Some 15001
    /\ anomaly r
       = {| detected := true; rollingAvgMs := Some 100;
            deviationFactor := Some {| Js.hundredths := 15001 |};
            severity := Some critical |}.
Proof.
  eexists _, _, _. split; [vm_compute; reflexivity|].
  repeat split.
Qed.

(** * Further properties of the script *)

Lemma toFixed2_div_nonneg (c a : Z) :
  0 < a -> 0 <= c ->
  Js.hundredths (Js.toFixed2 (Js.div c a)) = (200 * c + a) / (2 * a).
Proof.
  intros Ha Hc. destruct a as [|p|p]; try lia.
  unfold Js.toFixed2; cbn [Js.hundredths].
  assert (Hle : Qle_bool 0 (Js.div c (Z.pos p)) = true).
  { apply Qle_bool_iff. unfold Js.div, Qdiv, Qinv, Qmult, Qle. cbn. lia. }
  rewrite Hle.
  unfold Js.div, Qdiv, Qinv, Qmult, Qplus, Qfloor.
  cbn [inject_Z Qnum Qden]. rewrite !Pos2Z.inj_mul.
  f_equal; lia.
Qed.

(** ** The thresholds in integers *)

(** Where the doubles are fine enough for a threshold [m / 200] to
    separate the quotients of integers: rolling averages up to [2^45]. *)
Lemma ratio_threshold (m c avg : Z) :
  (m # 200 <= Js.as_Q (Js.round64 (m # 200)))%Q ->
  (Js.as_Q (Js.round64 ((m # 200) - (1 # 7036874417766400))) < m # 200)%Q ->
  0 < avg <= 2 ^ 45 -> Z.abs c < 2 ^ 53 ->
  ((m # 200 <= Js.as_Q (ratio c avg))%Q <-> m * avg <= 200 * c).
Proof.
  intros Hup Hdown Havg Hc.
  rewrite (ratio_round64 c avg Hc)
    by (change (2 ^ 45) with 35184372088832 in Havg;
        change (2 ^ 53) with 9007199254740992; lia).
  change (2 ^ 45) with 35184372088832 in Havg. clear Hc.
  assert (Hpos : (0 < inject_Z avg)%Q)
    by (change 0%Q with (inject_Z 0); rewrite <- Zlt_Qlt; lia).
  split.
  - intros Hge.
    destruct (Z.le_gt_cases (m * avg) (200 * c)) as [|Hlt]; [assumption|].
    exfalso. apply (Qlt_irrefl (m # 200)).
    eapply Qle_lt_trans; [exact Hge|]. eapply Qle_lt_trans; [|exact Hdown].
    apply Binary64.round64_mono. unfold Js.div.
    apply Qle_shift_div_r; [exact Hpos|].
    unfold Qle, Qminus, Qplus, Qmult, Qopp, inject_Z. cbn [Qnum Qden].
    rewrite ?Pos2Z.inj_mul. clear Hup Hdown Hge Hpos. lia.
  - intros Hle. eapply Qle_trans; [exact Hup|].
    apply Binary64.round64_mono. unfold Js.div.
    apply Qle_shift_div_l; [exact Hpos|].
    unfold Qle, Qmult, inject_Z. cbn [Qnum Qden]. rewrite ?Pos2Z.inj_mul.
    clear Hup Hdown Hpos. lia.
Qed.

Lemma threshold_warning :
  (399 # 200 <= Js.as_Q (Js.round64 (399 # 200)))%Q
  /\ (Js.as_Q (Js.round64 ((399 # 200) - (1 # 7036874417766400))) < 399 # 200)%Q.
Proof. split; vm_compute; [discriminate|reflexivity]. Qed.

Lemma threshold_critical :
  (599 # 200 <= Js.as_Q (Js.round64 (599 # 200)))%Q
  /\ (Js.as_Q (Js.round64 ((599 # 200) - (1 # 7036874417766400))) < 599 # 200)%Q.
Proof. split; vm_compute; [discriminate|reflexivity]. Qed.

(** [deviationFactor >= k] in integers. *)
Lemma parseFloat_ge (d : Js.Fixed2) (k : Z) :
  Qle_bool (inject_Z k) (Js.parseFloat d) = (100 * k <=? Js.hundredths d).
Proof.
  unfold Qle_bool, Js.parseFloat. cbn [inject_Z Qnum Qden].
  f_equal; lia.
Qed.

(** The verdict against a rolling average between 1 and [2^45], in
    integers. *)
Lemma verdict_for_integers (c avg : Z) :
  0 < avg <= 2 ^ 45 -> Z.abs c < 2 ^ 53 ->
  let v := verdict_for avg (deviation c avg) in
  (detected v = true <-> 399 * avg <= 200 * c)
  /\ (severity v = Some critical <-> 599 * avg <= 200 * c)
  /\ (severity v = Some warning <-> 399 * avg <= 200 * c < 599 * avg).
Proof.
  intros Havg Hc. cbv zeta.
  unfold verdict_for, ANOMALY_CRITICAL_FACTOR, ANOMALY_WARNING_FACTOR.
  rewrite !parseFloat_ge.
  pose proof (toFixed2_ge (Js.as_Q (ratio c avg)) 300 eq_refl) as H3.
  pose proof (toFixed2_ge (Js.as_Q (ratio c avg)) 200 eq_refl) as H2.
  destruct threshold_warning as [Hw1 Hw2]. destruct threshold_critical as [Hc1 Hc2].
  rewrite (ratio_threshold 599 c avg Hc1 Hc2 Havg Hc) in H3.
  rewrite (ratio_threshold 399 c avg Hw1 Hw2 Havg Hc) in H2.
  change (100 * 3) with 300. change (100 * 2) with 200.
  fold (deviation c avg) in H3, H2.
  clear Havg Hc Hw1 Hw2 Hc1 Hc2.
  generalize dependent (deviation c avg). intros d H3 H2.
  destruct (Z.leb_spec 300 (Js.hundredths d));
    [|destruct (Z.leb_spec 200 (Js.hundredths d))];
    cbn [detected severity];
    intuition (try reflexivity; try discriminate; try lia).
Qed.

(** X6: against a rolling average between 1 and [2^45] ms, and for a
    current response time below [2^53] ms in magnitude, the verdict is
    decided by integer comparisons: an anomaly is detected exactly when the
    current response time is at least 1.995 times the average, it is
    critical exactly from 2.995 times the average on, and a warning in
    between.  (Beyond these magnitudes the doubles are too coarse for the
    quotient to tell the two sides of a threshold apart.) *)
Theorem detectAnomaly_integer_thresholds (name : string) (currentMs : Z)
    (log : list ProbeResult) :
  let avg := rolling_average (history_of name log) in
  let v := detectAnomaly name (Some currentMs) log in
  (ANOMALY_MIN_SAMPLES <= List.length (filter (qualifies name) log))%nat ->
  0 < avg <= 2 ^ 45 ->
  Z.abs currentMs < 2 ^ 53 ->
  (detected v = true <-> 399 * avg <= 200 * currentMs)
  /\ (severity v = Some critical <-> 599 * avg <= 200 * currentMs)
  /\ (severity v = Some warning
      <-> 399 * avg <= 200 * currentMs < 599 * avg).
Proof.
  cbv zeta. intros Hlen Havg Hc. apply history_of_enough in Hlen.
  rewrite detectAnomaly_scored.
  rewrite (scoring_divisor_Some name currentMs log Hlen) by lia.
  apply verdict_for_integers; assumption.
Qed.

Lemma detectAnomaly_integer_thresholds_witness :
  (ANOMALY_MIN_SAMPLES
   <= List.length (filter (qualifies "A")
                     (repeat (entry_of "A" (Some 200%Z)) 5)))%nat
  /\ 0 < rolling_average (history_of "A" (repeat (entry_of "A" (Some 200)) 5))
     <= 2 ^ 45
  /\ Z.abs 399 < 2 ^ 53
  /\ detected (detectAnomaly "A" (Some 399)
                 (repeat (entry_of "A" (Some 200)) 5)) = true
  /\ detected (detectAnomaly "A" (Some 398)
                 (repeat (entry_of "A" (Some 200)) 5)) <> true.
Proof.
  assert (H5 : (ANOMALY_MIN_SAMPLES
                <= List.length (filter (qualifies "A")
                                  (repeat (entry_of "A" (Some 200%Z)) 5)))%nat)
    by (vm_compute; lia).
  assert (H0 : 0 < rolling_average
                     (history_of "A" (repeat (entry_of "A" (Some 200)) 5))
               <= 2 ^ 45)
    by (vm_compute; split; [reflexivity|discriminate]).
  assert (Hc : Z.abs 399 < 2 ^ 53) by reflexivity.
  assert (Hc' : Z.abs 398 < 2 ^ 53) by reflexivity.
  split; [exact H5|split; [exact H0|split; [exact Hc|]]].
  destruct (detectAnomaly_integer_thresholds "A" 399 _ H5 H0 Hc) as [Hyes _].
  destruct (detectAnomaly_integer_thresholds "A" 398 _ H5 H0 Hc') as [Hno _].
  split.
  - apply Hyes. vm_compute. discriminate.
  - intros Hd. apply Hno in Hd. vm_compute in Hd. apply Hd. reflexivity.
Defined.

(** ** A slower probe never looks better *)

Lemma deviation_mono (c c' avg : Z) :
  0 < avg -> c <= c' ->
  (Js.parseFloat (deviation c avg) <= Js.parseFloat (deviation c' avg))%Q.
Proof.
  intros Havg Hle. unfold deviation.
  apply parseFloat_mono, toFixed2_mono, ratio_mono; assumption.
Qed.

(** X7: when no logged response time is negative, a larger current
    response time never gives a milder verdict against the same log. *)
Theorem detectAnomaly_monotone (name : string) (c c' : Z)
    (log : list ProbeResult) :
  (forall r t, In r log -> responseTimeMs r = Some t -> 0 <= t) ->
  c <= c' ->
  (severity_rank (detectAnomaly name (Some c) log)
   <= severity_rank (detectAnomaly name (Some c') log))%nat.
Proof.
  intros Hall Hle. rewrite !detectAnomaly_scored.
  destruct (scoring_divisor name (Some c) log) as [avg|] eqn:Hdiv.
  - assert (Hdiv' : scoring_divisor name (Some c') log = Some avg)
      by exact Hdiv.
    rewrite Hdiv'.
    destruct (scoring_divisor_nonzero name (Some c) log avg Hdiv) as [Hdef Hnz].
    assert (Hpos : 0 < avg).
    { assert (0 <= avg); [|lia]. rewrite Hdef.
      apply rolling_average_nonneg. intros r t Hin.
      apply Hall. apply slice_last_In in Hin. now apply filter_In in Hin. }
    apply verdict_for_monotone, deviation_mono; assumption.
  - assert (Hdiv' : scoring_divisor name (Some c') log = None) by exact Hdiv.
    rewrite Hdiv'. reflexivity.
Qed.

Lemma detectAnomaly_monotone_witness :
  (forall r t, In r (repeat (entry_of "A" (Some 100)) 5) ->
     responseTimeMs r = Some t -> 0 <= t)
  /\ 250 <= 320
  /\ (severity_rank (detectAnomaly "A" (Some 250%Z)
                       (repeat (entry_of "A" (Some 100%Z)) 5))
      <= severity_rank (detectAnomaly "A" (Some 320%Z)
                          (repeat (entry_of "A" (Some 100%Z)) 5)))%nat.
Proof.
  assert (Hall : forall r t, In r (repeat (entry_of "A" (Some 100)) 5) ->
                   responseTimeMs r = Some t -> 0 <= t).
  { intros r t Hin Ht. apply repeat_spec in Hin. subst r.
    injection Ht as <-. lia. }
  assert (Hle : 250 <= 320) by lia.
  split; [exact Hall|split; [exact Hle|]].
  exact (detectAnomaly_monotone "A" 250 320 _ Hall Hle).
Defined.

(** ** The rolling average *)

(** Sums of at most ten integers up to [2^49] in magnitude are exact. *)
Lemma fold_add_time_between (history : list ProbeResult) (lo hi a : Z) :
  (forall r, In r history ->
     exists t, responseTimeMs r = Some t /\ lo <= t <= hi) ->
  - 2 ^ 49 <= lo -> hi <= 2 ^ 49 ->
  Z.abs a + Z.of_nat (List.length history) * 2 ^ 49 <= 10 * 2 ^ 49 ->
  exists s,
    fold_left add_time history (Js.Finite (inject_Z a)) = Js.Finite (inject_Z s)
    /\ a + Z.of_nat (List.length history) * lo <= s
       <= a + Z.of_nat (List.length history) * hi.
Proof.
  change (2 ^ 49) with 562949953421312.
  revert a. induction history as [|r history IH]; intros a Hall Hlo Hhi Ha.
  - exists a. cbn. split; [reflexivity|lia].
  - cbn [fold_left List.length] in *. rewrite Nat2Z.inj_succ in *.
    destruct (Hall r (or_introl eq_refl)) as (t & Ht & Hbounds).
    assert (Hadd : add_time (Js.Finite (inject_Z a)) r
                   = Js.Finite (inject_Z (a + t))).
    { unfold add_time. rewrite Ht, (of_Z_exact t)
        by (change (2 ^ 53) with 9007199254740992; lia).
      cbn [Js.add].
      apply Binary64.round64_integer; [now rewrite inject_Z_plus|].
      change (2 ^ 53) with 9007199254740992. lia. }
    rewrite Hadd.
    destruct (IH (a + t) (fun r' Hin => Hall r' (or_intror Hin)) Hlo Hhi)
      as (s & Hs & Hbetween); [lia|].
    exists s. split; [exact Hs|nia].
Qed.

Lemma history_of_timed (name : string) (log : list ProbeResult)
    (r : ProbeResult) :
  In r (history_of name log) ->
  In r log /\ endpoint r = name /\ exists t, responseTimeMs r = Some t.
Proof.
  intros Hin. apply slice_last_In in Hin. apply filter_In in Hin as [Hin Hq].
  apply qualifies_spec in Hq as [Hname Ht].
  repeat split; try assumption.
  destruct (responseTimeMs r) as [t|]; [now exists t|contradiction].
Qed.

(** X8: when the response times of a non-empty baseline window are at most
    [2^49] ms in magnitude, so that their sum is exact, the rolling average
    lies between any lower and any upper bound of them. *)
Theorem rolling_average_between (name : string) (log : list ProbeResult)
    (lo hi : Z) :
  history_of name log <> [] ->
  (forall r t, In r (history_of name log) ->
     responseTimeMs r = Some t -> lo <= t <= hi) ->
  - 2 ^ 49 <= lo -> hi <= 2 ^ 49 ->
  lo <= rolling_average (history_of name log) <= hi.
Proof.
  intros Hne Hall Hlo Hhi.
  pose proof (history_of_length name log) as Hlen.
  unfold rolling_average, mean.
  set (history := history_of name log) in *.
  assert (Hn : 0 < Z.of_nat (List.length history) <= 10)
    by (destruct history; [contradiction|];
        unfold ANOMALY_WINDOW in Hlen; cbn [List.length] in *; lia).
  destruct (fold_add_time_between history lo hi 0) as (s & Hs & Hsum);
    try assumption.
  { intros r Hin.
    destruct (history_of_timed name log r Hin) as (_ & _ & t & Ht).
    exists t. split; [exact Ht|]. now apply (Hall r t). }
  { change (2 ^ 49) with 562949953421312. lia. }
  change (Js.of_Z 0) with (Js.Finite (inject_Z 0)). rewrite Hs.
  change (2 ^ 49) with 562949953421312 in Hlo, Hhi.
  rewrite (of_Z_exact (Z.of_nat (List.length history)))
    by (change (2 ^ 53) with 9007199254740992; lia).
  generalize dependent (Z.of_nat (List.length history)).
  intros n Hn Hsum. cbn [Js.divide].
  assert (Hlh : lo <= hi) by nia.
  assert (Hnz : Qeq_bool (inject_Z n) 0 = false)
    by (apply positive_not_zero; change 0%Q with (inject_Z 0);
        rewrite <- Zlt_Qlt; lia).
  rewrite Hnz.
  assert (Hnpos : (0 < inject_Z n)%Q)
    by (change 0%Q with (inject_Z 0); rewrite <- Zlt_Qlt; lia).
  assert (Hq : (inject_Z lo <= inject_Z s / inject_Z n <= inject_Z hi)%Q).
  { split.
    - apply Qle_shift_div_l; [exact Hnpos|].
      rewrite <- inject_Z_mult, <- Zle_Qle. lia.
    - apply Qle_shift_div_r; [exact Hnpos|].
      rewrite <- inject_Z_mult, <- Zle_Qle. lia. }
  destruct Hq as [Hq1 Hq2].
  apply Binary64.round64_mono in Hq1, Hq2.
  fold (Js.of_Z lo) in Hq1. fold (Js.of_Z hi) in Hq2.
  rewrite (of_Z_exact lo) in Hq1 by (change (2 ^ 53) with 9007199254740992; lia).
  rewrite (of_Z_exact hi) in Hq2 by (change (2 ^ 53) with 9007199254740992; lia).
  cbn [Js.as_Q] in Hq1, Hq2.
  apply Math_round_mono in Hq1, Hq2. rewrite Math_round_Z in Hq1, Hq2.
  split; assumption.
Qed.

Lemma rolling_average_between_witness :
  history_of "A" [entry_of "A" (Some 90); entry_of "A" (Some 120);
                  entry_of "B" (Some 9000); entry_of "A" None] <> []
  /\ - 2 ^ 49 <= 90
  /\ 120 <= 2 ^ 49
  /\ 90 <= rolling_average
             (history_of "A" [entry_of "A" (Some 90); entry_of "A" (Some 120);
                              entry_of "B" (Some 9000); entry_of "A" None])
        <= 120.
Proof.
  assert (Hne : history_of "A" [entry_of "A" (Some 90); entry_of "A" (Some 120);
                                entry_of "B" (Some 9000); entry_of "A" None]
                <> []) by (vm_compute; discriminate).
  assert (Hlo : - 2 ^ 49 <= 90) by (vm_compute; discriminate).
  assert (Hhi : 120 <= 2 ^ 49) by (vm_compute; discriminate).
  split; [exact Hne|split; [exact Hlo|split; [exact Hhi|]]].
  apply (rolling_average_between "A" _ 90 120 Hne); [|exact Hlo|exact Hhi].
  intros r t Hin Ht. vm_compute in Hin.
  repeat (destruct Hin as [<-|Hin]; [injection Ht as <-; lia|]).
  contradiction.
Defined.

(** ** What the detector looks at *)

Lemma slice_last_app {A : Type} (n : nat) (old recent : list A) :
  (n <= List.length recent)%nat -> n <> O ->
  Js.slice_last n (old ++ recent) = Js.slice_last n recent.
Proof.
  intros Hlen Hn. destruct n as [|n]; [contradiction|].
  unfold Js.slice_last. rewrite length_app, skipn_app.
  replace (List.length old + List.length recent - S n)%nat
    with (List.length old + (List.length recent - S n))%nat by lia.
  rewrite skipn_all2 by lia. cbn [app]. f_equal. lia.
Qed.

(** X9: once the newer part of the log holds ten qualifying entries of
    the endpoint, nothing older has any influence on the verdict. *)
Theorem detectAnomaly_recent_only (name : string) (currentMs : option Z)
    (old recent : list ProbeResult) :
  (ANOMALY_WINDOW <= List.length (filter (qualifies name) recent))%nat ->
  detectAnomaly name currentMs (old ++ recent)
  = detectAnomaly name currentMs recent.
Proof.
  intros Hlen. apply detectAnomaly_history. unfold history_of.
  rewrite filter_app. apply slice_last_app; [exact Hlen|discriminate].
Qed.

Lemma detectAnomaly_recent_only_witness :
  (ANOMALY_WINDOW
   <= List.length (filter (qualifies "A")
                     (repeat (entry_of "A" (Some 100%Z)) 10)))%nat
  /\ detectAnomaly "A" (Some 250)
       (repeat (entry_of "A" (Some 10)) 3 ++ repeat (entry_of "A" (Some 100)) 10)
     = detectAnomaly "A" (Some 250) (repeat (entry_of "A" (Some 100)) 10).
Proof.
  assert (H10 : (ANOMALY_WINDOW
                 <= List.length (filter (qualifies "A")
                                   (repeat (entry_of "A" (Some 100%Z)) 10)))%nat)
    by (vm_compute; lia).
  split; [exact H10|].
  exact (detectAnomaly_recent_only "A" (Some 250)
           (repeat (entry_of "A" (Some 10)) 3) _ H10).
Defined.

Lemma filter_qualifies_named (name : string) (log : list ProbeResult) :
  filter (qualifies name)
         (filter (fun r => String.eqb (endpoint r) name) log)
  = filter (qualifies name) log.
Proof.
  induction log as [|r log IH]; [reflexivity|].
  cbn [filter]. destruct (String.eqb (endpoint r) name) eqn:Hn.
  - cbn [filter]. rewrite IH. reflexivity.
  - assert (Hq : qualifies name r = false)
      by (unfold qualifies; rewrite Hn; reflexivity).
    rewrite Hq. exact IH.
Qed.

(** X10: the entries of other endpoints have no influence on the verdict,
    wherever they stand in the log. *)
Theorem detectAnomaly_other_endpoints (name : string) (currentMs : option Z)
    (log : list ProbeResult) :
  detectAnomaly name currentMs log
  = detectAnomaly name currentMs
      (filter (fun r => String.eqb (endpoint r) name) log).
Proof.
  apply detectAnomaly_history. unfold history_of.
  now rewrite filter_qualifies_named.
Qed.

(** ** Substrings *)

Lemma prefix_app (p s : string) : prefix p (p ++ s) = true.
Proof.
  induction p as [|a p IH]; [destruct s; reflexivity|].
  cbn. destruct (ascii_dec a a); [exact IH|contradiction].
Qed.

Lemma prefix_split (p s : string) :
  prefix p s = true -> exists post, s = (p ++ post)%string.
Proof.
  revert s. induction p as [|a p IH]; intros s Hp.
  - now exists s.
  - destruct s as [|b s]; [discriminate|]. cbn in Hp.
    destruct (ascii_dec a b) as [<-|]; [|discriminate].
    destruct (IH s Hp) as [post ->]. now exists post.
Qed.

Lemma contains_iff (pat s : string) :
  Text.contains pat s = true
  <-> exists pre post, s = (pre ++ pat ++ post)%string.
Proof.
  split.
  - induction s as [|c s IH]; cbn [Text.contains]; intros H;
      apply orb_true_iff in H as [Hp|Hc]; try discriminate.
    + apply prefix_split in Hp as [post ->]. now exists ""%string, post.
    + apply prefix_split in Hp as [post ->]. now exists ""%string, post.
    + destruct (IH Hc) as (pre & post & ->).
      now exists (String c pre), post.
  - intros (pre & post & ->). induction pre as [|c pre IH].
    + cbn [append]. destruct (pat ++ post)%string eqn:E;
        cbn [Text.contains]; rewrite <- E, prefix_app; reflexivity.
    + cbn [append Text.contains]. rewrite IH. apply orb_true_r.
Qed.

Lemma lowercase_app (a b : string) :
  Text.lowercase (a ++ b) = (Text.lowercase a ++ Text.lowercase b)%string.
Proof. induction a as [|c a IH]; [reflexivity|]. cbn. now rewrite IH. Qed.

Lemma lowercase_split (s a b : string) :
  Text.lowercase s = (a ++ b)%string ->
  exists sa sb,
    s = (sa ++ sb)%string /\ Text.lowercase sa = a /\ Text.lowercase sb = b.
Proof.
  revert s. induction a as [|c a IH]; intros s Hs.
  - now exists ""%string, s.
  - destruct s as [|d s]; [discriminate|]. cbn in Hs.
    injection Hs as Hc Hs. destruct (IH s Hs) as (sa & sb & -> & <- & <-).
    exists (String d sa), sb. cbn. now rewrite Hc.
Qed.

Lemma contains_lowercase_iff (pat s : string) :
  Text.contains pat (Text.lowercase s) = true
  <-> exists pre w post,
        s = (pre ++ w ++ post)%string /\ Text.lowercase w = pat.
Proof.
  rewrite contains_iff. split.
  - intros (pre & post & Hs).
    apply lowercase_split in Hs as (spre & rest & -> & _ & Hrest).
    apply lowercase_split in Hrest as (w & spost & -> & Hw & _).
    now exists spre, w, spost.
  - intros (pre & w & post & -> & <-).
    exists (Text.lowercase pre), (Text.lowercase post).
    now rewrite !lowercase_app.
Qed.

(** X3: a content type passes the test of line 242 exactly when it
    contains, in any mix of upper and lower case, the letters xml or
    sdmx. *)
Theorem content_type_ok_iff (contentType : string) :
  content_type_ok contentType = true
  <-> exists pre w post,
        contentType = (pre ++ w ++ post)%string
        /\ (Text.lowercase w = "xml"%string
            \/ Text.lowercase w = "sdmx"%string).
Proof.
  unfold content_type_ok. rewrite orb_true_iff, !contains_lowercase_iff.
  split.
  - intros [(pre & w & post & Hs & Hw)|(pre & w & post & Hs & Hw)];
      exists pre, w, post; auto.
  - intros (pre & w & post & Hs & [Hw|Hw]); [left|right];
      now exists pre, w, post.
Qed.

(** ** Counting matches *)

Lemma prefix_length (p s : string) :
  prefix p s = true -> (String.length p <= String.length s)%nat.
Proof.
  revert s. induction p as [|a p IH]; intros s Hp; [cbn; lia|].
  destruct s as [|b s]; [discriminate|]. cbn in Hp |- *.
  destruct (ascii_dec a b); [|discriminate]. specialize (IH s Hp). lia.
Qed.

Lemma count_from_bound (pat : string) (skip : nat) (s : string) :
  (String.length pat * Text.count_from pat skip s
   <= String.length s - skip)%nat.
Proof.
  revert skip. induction s as [|c s IH]; intros skip; [cbn; lia|].
  cbn [Text.count_from]. destruct skip as [|k].
  - destruct (prefix pat (String c s)) eqn:Hp.
    + apply prefix_length in Hp. cbn [String.length] in *.
      specialize (IH (String.length pat - 1)%nat). nia.
    + specialize (IH O). cbn [String.length]. lia.
  - specialize (IH k). cbn [String.length]. lia.
Qed.

(** X4: the matches counted for a metric do not overlap: as many copies of
    the pattern as the count says fit into the body. *)
Theorem count_matches_bound (pat body : string) :
  (String.length pat * Text.count_matches pat body
   <= String.length body)%nat.
Proof.
  unfold Text.count_matches. pose proof (count_from_bound pat O body). lia.
Qed.

Lemma contains_empty (pat : string) :
  pat <> ""%string -> Text.contains pat "" = false.
Proof. destruct pat; [contradiction|reflexivity]. Qed.

(** X5: the count of a non-empty pattern is zero exactly when the body
    does not contain the pattern. *)
Theorem count_matches_zero_iff (pat body : string) :
  pat <> ""%string ->
  (Text.count_matches pat body = O <-> Text.contains pat body = false).
Proof.
  intros Hpat. unfold Text.count_matches.
  induction body as [|c body IH].
  - cbn [Text.count_from]. rewrite contains_empty by exact Hpat. tauto.
  - cbn [Text.count_from Text.contains].
    destruct (prefix pat (String c body)); cbn [orb].
    + split; discriminate.
    + exact IH.
Qed.

Lemma count_matches_zero_iff_witness :
  "Codelist"%string <> ""%string
  /\ Text.count_matches "Codelist" "<html>502 Bad Gateway</html>" = O.
Proof.
  assert (Hpat : "Codelist"%string <> ""%string) by discriminate.
  split; [exact Hpat|].
  apply (count_matches_zero_iff "Codelist" "<html>502 Bad Gateway</html>" Hpat).
  reflexivity.
Defined.

(** ** The two paths of the prober *)

(** X1: when the request is rejected, or the body of a response that did
    arrive cannot be read, the result carries the timeout message for an
    [AbortError] and the error's own message otherwise, the time elapsed
    up to the [catch] block, and the placeholders of the initial record
    for everything else: no status (even if one had arrived), [ok] false,
    no size, no metric value. *)
Theorem checkEndpoint_failure (ep : Endpoint.Config) (env : Probe)
    (now : Z) (err : JsError) :
  fetched env = Rejected now err
  \/ (exists now0 response,
        fetched env = Responded now0 response (BodyFailed now err)) ->
  let r := checkEndpoint ep env in
  error r
  = Some (if String.eqb (err_name err) "AbortError"
          then "Request timed out after 15000ms"%string
          else err_message err)
  /\ responseTimeMs r = Some (now - t0 env)
  /\ ok r = false
  /\ status r = None
  /\ contentTypeValid r = false
  /\ responseSizeKB r = None
  /\ extraMetric r
     = {| label := label (Endpoint.extraMetric ep ""); value := None |}
  /\ anomaly r = not_detected.
Proof.
  intros [Hf|(now0 & response & Hf)]; unfold checkEndpoint; rewrite Hf;
    cbn; (destruct (String.eqb (err_name err) "AbortError"); repeat split).
Qed.

Lemma checkEndpoint_failure_witness :
  (exists now0 response,
     fetched {| iso_time := "T"; t0 := 1000;
                fetched := Responded 1090
                             {| Http.status := 200;
                                Http.content_type := Some "text/xml"%string |}
                             (BodyFailed 1450
                                {| err_name := "TypeError"; err_code := None;
                                   err_message := "terminated" |}) |}
     = Responded now0 response
         (BodyFailed 1450
            {| err_name := "TypeError"; err_code := None;
               err_message := "terminated" |}))
  /\ status (checkEndpoint codelists_endpoint
               {| iso_time := "T"; t0 := 1000;
                  fetched := Responded 1090
                               {| Http.status := 200;
                                  Http.content_type := Some "text/xml"%string |}
                               (BodyFailed 1450
                                  {| err_name := "TypeError"; err_code := None;
                                     err_message := "terminated" |}) |})
     = None
  /\ responseTimeMs
       (checkEndpoint codelists_endpoint
          {| iso_time := "T"; t0 := 1000;
             fetched := Responded 1090
                          {| Http.status := 200;
                             Http.content_type := Some "text/xml"%string |}
                          (BodyFailed 1450
                             {| err_name := "TypeError"; err_code := None;
                                err_message := "terminated" |}) |})
     = Some 450.
Proof.
  assert (Hf : exists now0 response,
     fetched {| iso_time := "T"; t0 := 1000;
                fetched := Responded 1090
                             {| Http.status := 200;
                                Http.content_type := Some "text/xml"%string |}
                             (BodyFailed 1450
                                {| err_name := "TypeError"; err_code := None;
                                   err_message := "terminated" |}) |}
     = Responded now0 response
         (BodyFailed 1450
            {| err_name := "TypeError"; err_code := None;
               err_message := "terminated" |}))
    by (eexists _, _; reflexivity).
  split; [exact Hf|].
  destruct (checkEndpoint_failure codelists_endpoint _ 1450 _ (or_intror Hf))
    as (_ & Htime & _ & Hstatus & _).
  split; [exact Hstatus|exact Htime].
Defined.

Lemma Http_ok_iff (response : Http.Response) :
  Http.ok response = true <-> 200 <= Http.status response <= 299.
Proof. unfold Http.ok. rewrite andb_true_iff, !Z.leb_le. tauto. Qed.

(** X2: a response whose body could be read never sets [error], whatever
    its status: the status is recorded, [ok] holds exactly for 200 to 299,
    a missing content-type header makes the content type invalid, and the
    size is a non-negative number of KB within half a hundredth of the
    byte length over 1024. *)
Theorem checkEndpoint_success (ep : Endpoint.Config) (env : Probe)
    (now : Z) (response : Http.Response) (body : string) :
  fetched env = Responded now response (BodyRead body) ->
  let r := checkEndpoint ep env in
  error r = None
  /\ status r = Some (Http.status response)
  /\ (ok r = true <-> 200 <= Http.status response <= 299)
  /\ responseTimeMs r = Some (now - t0 env)
  /\ (Http.content_type response = None -> contentTypeValid r = false)
  /\ extraMetric r = Endpoint.extraMetric ep body
  /\ exists size,
       responseSizeKB r = Some size
       /\ 0 <= Js.hundredths size
       /\ (Qabs (Js.parseFloat size - Js.div (byteLength body) 1024)
           <= 1 # 200)%Q.
Proof.
  intros Hf. unfold checkEndpoint. rewrite Hf. cbn.
  split; [reflexivity|split; [reflexivity|split; [apply Http_ok_iff|]]].
  split; [reflexivity|split; [now intros ->|split; [reflexivity|]]].
  eexists. split; [reflexivity|]. split; [|apply toFixed2_close].
  rewrite toFixed2_div_nonneg by (unfold byteLength; lia).
  apply Z.div_pos; unfold byteLength; lia.
Qed.

Lemma checkEndpoint_success_witness :
  fetched (answers 120 404 "text/html" "Not Found")
  = Responded (1740808800000 + 120)
      {| Http.status := 404; Http.content_type := Some "text/html"%string |}
      (BodyRead "Not Found")
  /\ error (checkEndpoint structures_endpoint
              (answers 120 404 "text/html" "Not Found")) = None
  /\ status (checkEndpoint structures_endpoint
               (answers 120 404 "text/html" "Not Found")) = Some 404.
Proof.
  split; [reflexivity|].
  destruct (checkEndpoint_success structures_endpoint
              (answers 120 404 "text/html" "Not Found") _ _ _ eq_refl)
    as (Herr & Hstatus & _).
  split; [exact Herr|exact Hstatus].
Defined.

(** ** Runs *)

Section RunFacts.
Context `{Json}.

Lemma annotate_ok (log : list ProbeResult) (r : ProbeResult) :
  ok (annotate log r) = ok r.
Proof. reflexivity. Qed.

Lemma failCount_annotate (log results : list ProbeResult) :
  failCount (map (annotate log) results) = failCount results.
Proof.
  unfold failCount. induction results as [|r results IH]; [reflexivity|].
  cbn [map filter]. rewrite annotate_ok.
  destruct (negb (ok r)); cbn [List.length]; now rewrite IH.
Qed.

(** X11: the exit code of a completed run is decided by the probes alone:
    neither the content of the log file nor the anomaly verdicts change
    it. *)
Theorem exit_code_ignores_log (endpoints : list Endpoint.Config)
    (world : Endpoint.Config -> Probe) (disk : Disk) (r : Run) :
  run endpoints world disk = Return r ->
  process_exit_code (run endpoints world disk)
  = exit_code_of (map (fun ep => checkEndpoint ep (world ep)) endpoints)
  /\ map ok (results r)
     = map (fun ep => ok (checkEndpoint ep (world ep))) endpoints.
Proof.
  intros Hrun. rewrite Hrun. revert Hrun.
  destruct (readLog_total disk) as [log Hread].
  rewrite (run_after_read endpoints world disk log Hread).
  destruct (write_error disk); [discriminate|].
  intros [= <-]. cbn [process_exit_code exit_code results]. split.
  - rewrite <- (map_map (fun ep => checkEndpoint ep (world ep)) (annotate log)).
    unfold exit_code_of. now rewrite failCount_annotate, !length_map.
  - rewrite map_map. apply map_ext. intros ep. apply annotate_ok.
Qed.

Lemma annotate_endpoint (log : list ProbeResult) (ep : Endpoint.Config)
    (env : Probe) :
  endpoint (annotate log (checkEndpoint ep env)) = Endpoint.name ep.
Proof.
  unfold annotate, set_anomaly, checkEndpoint.
  destruct (fetched env) as [? ? []|]; reflexivity.
Qed.

(** What a completed run leaves, given the log it read. *)
Lemma run_Return (endpoints : list Endpoint.Config)
    (world : Endpoint.Config -> Probe) (disk : Disk)
    (before : list ProbeResult) (r : Run) :
  readLog disk = Return before ->
  run endpoints world disk = Return r ->
  results r
  = map (fun ep => annotate before (checkEndpoint ep (world ep))) endpoints
  /\ disk_after r
     = {| file := Some (JSON_stringify (trimmed (before ++ results r)));
          write_error := None |}.
Proof.
  intros Hread. rewrite (run_after_read endpoints world disk before Hread).
  destruct (write_error disk); [discriminate|].
  intros [= <-]. split; reflexivity.
Qed.

Lemma holds_log_written (log : list ProbeResult) :
  round_trips ->
  holds_log {| file := Some (JSON_stringify log); write_error := None |} log.
Proof. intros Hrt. unfold holds_log. cbn [file]. apply Hrt. Qed.

(** X12: a completed run that found a well-formed log has read it once,
    scored every probe against that snapshot, and left the snapshot with
    its own results appended in endpoint order, cut to the last 200
    entries, which is a well-formed log again; nothing is lost while the
    total stays within 200. *)
Theorem run_appends (endpoints : list Endpoint.Config)
    (world : Endpoint.Config -> Probe) (disk : Disk)
    (before : list ProbeResult) (r : Run) :
  round_trips ->
  holds_log disk before ->
  run endpoints world disk = Return r ->
  results r
  = map (fun ep => annotate before (checkEndpoint ep (world ep))) endpoints
  /\ map endpoint (results r) = map Endpoint.name endpoints
  /\ holds_log (disk_after r)
       (Js.slice_last MAX_LOG_ENTRIES (before ++ results r))
  /\ readLog (disk_after r)
     = Return (Js.slice_last MAX_LOG_ENTRIES (before ++ results r))
  /\ ((List.length before + List.length endpoints <= MAX_LOG_ENTRIES)%nat ->
      readLog (disk_after r) = Return (before ++ results r)).
Proof.
  intros Hrt Hlog Hrun. apply readLog_holds in Hlog.
  destruct (run_Return endpoints world disk before r Hlog Hrun)
    as [Hres Hdisk].
  assert (Hheld : holds_log (disk_after r)
                    (Js.slice_last MAX_LOG_ENTRIES (before ++ results r)))
    by (rewrite Hdisk; apply holds_log_written, Hrt).
  split; [exact Hres|].
  split; [rewrite Hres, map_map; apply map_ext; intros ep;
          apply annotate_endpoint|].
  split; [exact Hheld|].
  apply readLog_holds in Hheld.
  split; [exact Hheld|].
  intros Hlen. rewrite Hheld, slice_last_short; [reflexivity|].
  rewrite Hres, length_app, length_map. exact Hlen.
Qed.

(** X13: when two runs complete one after the other, the first from a
    well-formed log, the second scores its probes against the log the
    first left: the earlier snapshot with the first results appended, cut
    to the last 200 entries. *)
Theorem next_run_baseline (endpoints : list Endpoint.Config)
    (world world' : Endpoint.Config -> Probe) (disk : Disk)
    (before : list ProbeResult) (r r' : Run) :
  round_trips ->
  holds_log disk before ->
  run endpoints world disk = Return r ->
  run endpoints world' (disk_after r) = Return r' ->
  results r'
  = map (fun ep =>
           annotate (Js.slice_last MAX_LOG_ENTRIES (before ++ results r))
                    (checkEndpoint ep (world' ep)))
        endpoints.
Proof.
  intros Hrt Hlog Hrun Hrun'. apply readLog_holds in Hlog.
  destruct (run_Return endpoints world disk before r Hlog Hrun)
    as [_ Hdisk].
  assert (Hread : readLog (disk_after r)
                  = Return (Js.slice_last MAX_LOG_ENTRIES (before ++ results r)))
    by (rewrite Hdisk; apply readLog_holds, holds_log_written, Hrt).
  exact (proj1 (run_Return endpoints world' (disk_after r) _ r' Hread Hrun')).
Qed.

End RunFacts.

(** A log the reference implementation wrote is well formed. *)
Lemma reference_holds_log (log : list ProbeResult) :
  @holds_log ReferenceJson.json (holding (ReferenceJson.stringify log)) log.
Proof.
  exact (@holds_log_written ReferenceJson.json log
           ReferenceJsonFacts.reference_round_trips).
Qed.

(** Every endpoint answers, against an absent log. *)
Lemma exit_code_ignores_log_witness :
  exists r,
    @main ReferenceJson.json
      (world_with (answers 95 200 "application/xml" "<DataStructure/>"))
      absent = Return r
    /\ process_exit_code
         (@main ReferenceJson.json
            (world_with (answers 95 200 "application/xml" "<DataStructure/>"))
            absent) = 0
    /\ map ok (results r) = [true; true; true].
Proof.
  eexists. split; [vm_compute; reflexivity|].
  exact (@exit_code_ignores_log ReferenceJson.json ENDPOINTS
           (world_with (answers 95 200 "application/xml" "<DataStructure/>"))
           absent _ eq_refl).
Defined.

(** One logged entry, then a run in which every endpoint answers. *)
Lemma run_appends_witness :
  @round_trips ReferenceJson.json
  /\ @holds_log ReferenceJson.json
       (holding (ReferenceJson.stringify [entry_of "Structures" (Some 100)]))
       [entry_of "Structures" (Some 100)]
  /\ exists r,
       @main ReferenceJson.json
         (world_with (answers 95 200 "application/xml" "<DataStructure/>"))
         (holding (ReferenceJson.stringify [entry_of "Structures" (Some 100)]))
       = Return r
       /\ @readLog ReferenceJson.json (disk_after r)
          = Return (entry_of "Structures" (Some 100) :: results r)
       /\ map endpoint (results r)
          = ["Structures"; "Data Query"; "Codelists"]%string.
Proof.
  split; [exact ReferenceJsonFacts.reference_round_trips|].
  split; [apply reference_holds_log|].
  eexists. split; [vm_compute; reflexivity|].
  destruct (@run_appends ReferenceJson.json ENDPOINTS
              (world_with (answers 95 200 "application/xml" "<DataStructure/>"))
              (holding (ReferenceJson.stringify
                          [entry_of "Structures" (Some 100)]))
              [entry_of "Structures" (Some 100)] _
              ReferenceJsonFacts.reference_round_trips
              (reference_holds_log _) eq_refl)
    as (_ & Hnames & _ & _ & Hshort).
  split; [|exact Hnames].
  apply Hshort. cbn. unfold MAX_LOG_ENTRIES. lia.
Defined.

(** Two runs from an absent log file. *)
Lemma next_run_baseline_witness :
  @round_trips ReferenceJson.json
  /\ @holds_log ReferenceJson.json absent []
  /\ exists r r',
       @main ReferenceJson.json (world_with (times_out 15001)) absent
       = Return r
       /\ @main ReferenceJson.json (world_with (refuses 12)) (disk_after r)
          = Return r'
       /\ results r'
          = map (fun ep => annotate (results r)
                             (checkEndpoint ep (world_with (refuses 12) ep)))
                ENDPOINTS.
Proof.
  split; [exact ReferenceJsonFacts.reference_round_trips|].
  split; [reflexivity|].
  eexists. eexists.
  split; [vm_compute; reflexivity|].
  split; [vm_compute; reflexivity|].
  exact (@next_run_baseline ReferenceJson.json ENDPOINTS
           (world_with (times_out 15001)) (world_with (refuses 12)) absent
           [] _ _ ReferenceJsonFacts.reference_round_trips eq_refl
           eq_refl eq_refl).
Defined.

(** ** Results and the registry *)

(** X14: for the three endpoints of the registry the label of the metric
    is the same on every path, and its value is null exactly when the
    probe failed. *)
Theorem registry_metric (ep : Endpoint.Config) (env : Probe) :
  In ep ENDPOINTS ->
  label (extraMetric (checkEndpoint ep env))
  = label (Endpoint.extraMetric ep "")
  /\ (value (extraMetric (checkEndpoint ep env)) = None <-> failed env).
Proof.
  intros Hin. unfold checkEndpoint, failed.
  destruct Hin as [<-|[<-|[<-|[]]]];
    destruct (fetched env) as [now response [body|now' err]|now err];
    cbn [extraMetric label value Endpoint.extraMetric structures_endpoint
         data_query_endpoint codelists_endpoint];
    (split; [reflexivity|]); split; intros; try exact I; try reflexivity;
    try discriminate; try contradiction.
Qed.

Lemma registry_metric_witness :
  In data_query_endpoint ENDPOINTS
  /\ label (extraMetric (checkEndpoint data_query_endpoint (times_out 15001)))
     = "Response size KB"%string
  /\ value (extraMetric (checkEndpoint data_query_endpoint (times_out 15001)))
     = None.
Proof.
  assert (Hin : In data_query_endpoint ENDPOINTS) by (right; left; reflexivity).
  split; [exact Hin|].
  destruct (registry_metric data_query_endpoint (times_out 15001) Hin)
    as [Hlabel Hvalue].
  split; [exact Hlabel|]. apply Hvalue. exact I.
Defined.

(** X15: every result of the prober, of a failed request as well, carries
    a response time and so counts as a sample of its endpoint in the
    baseline of later runs. *)
Theorem every_result_qualifies (ep : Endpoint.Config) (env : Probe)
    (log : list ProbeResult) :
  qualifies (Endpoint.name ep) (annotate log (checkEndpoint ep env)) = true.
Proof.
  unfold qualifies, annotate, set_anomaly, checkEndpoint.
  destruct (fetched env) as [now response [body|now' err]|now err];
    cbn [endpoint responseTimeMs is_null negb];
    rewrite String.eqb_refl; reflexivity.
Qed.
